(** * Customer risk backend: records, session, endpoints and their properties

    A shallow embedding of the FastAPI / SQLAlchemy backend under
    [backend/app]: the four tables of [db/models.py], the request schemas of
    [models/schemas.py], the oracle wrapper of [models/ml_model.py], the
    endpoints of [api/endpoints/*.py] and [services/risk_service.py].

    Tables are lists of rows in insertion order.  A request runs in a
    session that holds the committed database and a working copy; [db.add],
    bulk deletes and attribute writes act on the working copy, [db.commit()]
    publishes it, an exception leaves the last committed database.
    Queries follow PostgreSQL, the dialect [db/models.py] is written for:
    [.distinct(col)] is [DISTINCT ON (col)].  [db.delete(row)] deletes that
    row.  *)

From Stdlib Require Import QArith.
From stdpp Require Import gmap strings list sorting pretty.

Local Open Scope string_scope.
Local Open Scope list_scope.
Local Open Scope stdpp_scope.
Local Open Scope Z_scope.
Local Set Warnings "-register-all,-clear-no-such-hyp,-level-tolerance".

(** ** Values *)

Definition uuid := N.
Definition datetime := Z.

(** JSON / Python values that reach the feature dictionaries
    ([CustomerFeatures] has [extra = "allow"]). Python floats are idealised
    as rationals. *)
Inductive pyval :=
| PyNone
| PyBool (b : bool)
| PyInt (z : Z)
| PyFloat (q : Q)
| PyStr (s : string)
| PyList (l : list pyval).

(** A Python dict in insertion order. *)
Definition pydict := list (string * pyval).

Fixpoint dict_get (k : string) (d : pydict) : option pyval :=
  match d with
  | [] => None
  | (k', v) :: d' => if decide (k' = k) then Some v else dict_get k d'
  end.

(** [isinstance(v, (int, float))]; [bool] is a subclass of [int]. *)
Definition is_int_or_float (v : pyval) : bool :=
  match v with
  | PyBool _ | PyInt _ | PyFloat _ => true
  | _ => false
  end.

Inductive exn :=
| HTTPException (status_code : Z) (detail : string)
| ValueError (msg : string)
| TypeError (msg : string)
| ValidationError (errors : list string).

(** [str(e)] *)
Definition exn_str (e : exn) : string :=
  match e with
  | HTTPException c d => pretty c +:+ ": " +:+ d
  | ValueError m | TypeError m => m
  | ValidationError es => String.concat "; " es
  end.

(** ** Tables ([db/models.py]) *)

Record Customer := {
  cust_id : uuid;
  cust_external_id : option string;
  cust_name : string;
  cust_email : option string;
  cust_phone : option string;
  cust_created_at : datetime;
  cust_updated_at : option datetime }.

Record CustomerFeatureRecord := {
  feat_id : uuid;
  feat_customer_id : uuid;
  feat_feature_name : string;
  feat_feature_value : Q;
  feat_recorded_at : datetime }.

Record RiskPredictionRecord := {
  pred_id : uuid;
  pred_customer_id : uuid;
  pred_risk_level : string;
  pred_confidence_score : option Q;
  pred_prediction_timestamp : datetime }.

Record MitigationRecord := {
  mit_id : uuid;
  mit_customer_id : uuid;
  mit_risk_level : string;
  mit_mitigation_type : string;
  mit_description : string;
  mit_assigned_to : option string;
  mit_due_date : option datetime;
  mit_created_at : datetime;
  mit_updated_at : option datetime;
  mit_status : string }.

Record Database := {
  customers : list Customer;
  customer_features : list CustomerFeatureRecord;
  risk_predictions : list RiskPredictionRecord;
  mitigations : list MitigationRecord }.

Definition set_customers (f : list Customer → list Customer) (d : Database) :=
  {| customers := f (customers d); customer_features := customer_features d;
     risk_predictions := risk_predictions d; mitigations := mitigations d |}.
Definition set_customer_features
    (f : list CustomerFeatureRecord → list CustomerFeatureRecord) (d : Database) :=
  {| customers := customers d; customer_features := f (customer_features d);
     risk_predictions := risk_predictions d; mitigations := mitigations d |}.
Definition set_risk_predictions
    (f : list RiskPredictionRecord → list RiskPredictionRecord) (d : Database) :=
  {| customers := customers d; customer_features := customer_features d;
     risk_predictions := f (risk_predictions d); mitigations := mitigations d |}.
Definition set_mitigations
    (f : list MitigationRecord → list MitigationRecord) (d : Database) :=
  {| customers := customers d; customer_features := customer_features d;
     risk_predictions := risk_predictions d; mitigations := f (mitigations d) |}.

(** ** The request session *)

(** What a request takes from outside the repository: the clock, the uuid
    generator (the [n]-th uuid drawn in the request) and [float()] on a
    string. *)
Record runtime := {
  utcnow : datetime;
  uuid4 : nat → uuid;
  float_of_str : string → option Q }.

Record Session := {
  committed : Database;
  working : Database;
  drawn : nat }.

Definition M (A : Type) : Type := runtime → Session → Session * (exn + A).

Global Instance M_ret : MRet M := λ A a _ s, (s, inr a).
Global Instance M_bind : MBind M := λ A B f m rt s,
  match m rt s with
  | (s', inr a) => f a rt s'
  | (s', inl e) => (s', inl e)
  end.

Definition raise {A} (e : exn) : M A := λ _ s, (s, inl e).

(** [try: m except <e>: h e] *)
Definition try_except {A} (m : M A) (h : exn → M A) : M A := λ rt s,
  match m rt s with
  | (s', inl e) => h e rt s'
  | r => r
  end.

Definition query {A} (q : Database → A) : M A := λ _ s, (s, inr (q (working s))).

Definition update_working (f : Database → Database) : M unit := λ _ s,
  ({| committed := committed s; working := f (working s); drawn := drawn s |}, inr tt).

Definition db_commit : M unit := λ _ s,
  ({| committed := working s; working := working s; drawn := drawn s |}, inr tt).

Definition datetime_utcnow : M datetime := λ rt s, (s, inr (utcnow rt)).

Definition fresh_uuid : M uuid := λ rt s,
  ({| committed := committed s; working := working s; drawn := S (drawn s) |},
   inr (uuid4 rt (drawn s))).

(** A request starts from the committed database; what persists afterwards
    is what was committed. *)
Definition run {A} (rt : runtime) (db : Database) (m : M A) : Database * (exn + A) :=
  let '(s, r) := m rt {| committed := db; working := db; drawn := 0 |} in
  (committed s, r).

(** [for x in l: body x] *)
Fixpoint for_each {A} (l : list A) (body : A → M unit) : M unit :=
  match l with
  | [] => mret tt
  | x :: l' => body x ≫= λ _, for_each l' body
  end.

(** [float(v)]: raises on what is neither a number nor a numeric string. *)
Definition float (rt : runtime) (v : pyval) : exn + Q :=
  match v with
  | PyBool b => inr (if b then 1%Q else 0%Q)
  | PyInt z => inr (inject_Z z)
  | PyFloat q => inr q
  | PyStr s =>
      match float_of_str rt s with
      | Some q => inr q
      | None => inl (ValueError ("could not convert string to float: " +:+ s))
      end
  | PyNone =>
      inl (TypeError "float() argument must be a string or a real number, not 'NoneType'")
  | PyList _ =>
      inl (TypeError "float() argument must be a string or a real number, not 'list'")
  end.

Definition py_float (v : pyval) : M Q := λ rt s, (s, float rt v).

(** ** Query building blocks *)

(** [.filter(P).first()] with no ordering: the first matching row. *)
Definition first_where {A} (P : A → Prop) `{!∀ x, Decision (P x)} (l : list A) : option A :=
  head (filter P l).

(** [.order_by(key.desc())] *)
Definition key_desc {A} (key : A → Z) : relation A := λ a b, key b ≤ key a.
Global Instance key_desc_dec {A} (key : A → Z) a b : Decision (key_desc key a b).
Proof. unfold key_desc. apply _. Defined.
Definition order_by_desc {A} (key : A → Z) (l : list A) : list A :=
  merge_sort (key_desc key) l.

(** [UPDATE ... WHERE P]: the attribute writes on a loaded row, flushed. *)
Definition update_where {A} (P : A → Prop) `{!∀ x, Decision (P x)} (f : A → A)
    (l : list A) : list A :=
  (λ r, if decide (P r) then f r else r) <$> l.

(** [.filter(P).delete()] *)
Definition delete_where {A} (P : A → Prop) `{!∀ x, Decision (P x)} (l : list A) : list A :=
  filter (λ r, ¬ P r) l.

(** The latest prediction of a customer, as every endpoint queries it:
    [filter(customer_id == cid).order_by(prediction_timestamp.desc()).first()]. *)
Definition latest_prediction_of (cid : uuid) (db : Database) : option RiskPredictionRecord :=
  head (order_by_desc pred_prediction_timestamp
          (filter (λ p, pred_customer_id p = cid) (risk_predictions db))).

(** The Risk Ledger's current risk level of a customer. *)
Definition current_risk_level (cid : uuid) (db : Database) : option string :=
  pred_risk_level <$> latest_prediction_of cid db.

(** ** Mitigations ([models/schemas.py], [api/endpoints/mitigations.py]) *)

Record MitigationCreate := {
  mc_customer_id : uuid;
  mc_risk_level : string;
  mc_mitigation_type : string;
  mc_description : string;
  mc_assigned_to : option string;
  mc_due_date : option datetime }.

Definition valid_statuses : list string :=
  ["Pending"; "In Progress"; "Completed"; "Cancelled"].

Definition high_risk_only : string :=
  "Mitigations can only be applied to high-risk customers".

Definition validate_high_risk (v : string) : exn + string :=
  if decide (v ≠ "High") then inl (ValueError high_risk_only) else inr v.

Definition allowed_types : list string := ["Flag"; "Note"; "Action"; "Monitor"].

Definition validate_mitigation_type (v : string) : exn + string :=
  if decide (v ∉ allowed_types) then
    inl (ValueError "mitigation_type must be one of ['Flag', 'Note', 'Action', 'Monitor']")
  else inr v.

Definition validator_errors {A} (r : exn + A) : list string :=
  match r with inl e => [exn_str e] | inr _ => [] end.

(** Building the [MitigationCreate] request model runs its field validators;
    their [ValueError]s are collected into one validation error. *)
Definition MitigationCreate_validate (body : MitigationCreate) : M MitigationCreate :=
  match validator_errors (validate_high_risk (mc_risk_level body)) ++
        validator_errors (validate_mitigation_type (mc_mitigation_type body)) with
  | [] => mret body
  | errs => raise (ValidationError errs)
  end.

Module Mitigations.

Definition create_mitigation (mitigation : MitigationCreate) : M MitigationRecord :=
  try_except
    (customer ← query (λ db,
       first_where (λ c, cust_id c = mc_customer_id mitigation) (customers db));
     match customer with
     | None => raise (HTTPException 404 "Customer not found")
     | Some _ =>
       latest_prediction ← query (latest_prediction_of (mc_customer_id mitigation));
       if match latest_prediction with
          | None => true
          | Some p => bool_decide (pred_risk_level p ≠ "High")
          end
       then raise (HTTPException 400 high_risk_only)
       else
         new_id ← fresh_uuid;
         now ← datetime_utcnow;
         let db_mitigation :=
           {| mit_id := new_id;
              mit_customer_id := mc_customer_id mitigation;
              mit_risk_level := mc_risk_level mitigation;
              mit_mitigation_type := mc_mitigation_type mitigation;
              mit_description := mc_description mitigation;
              mit_assigned_to := mc_assigned_to mitigation;
              mit_due_date := mc_due_date mitigation;
              mit_created_at := now;
              mit_updated_at := None;
              mit_status := "Pending" |} in
         update_working (set_mitigations (λ l, l ++ [db_mitigation]));;
         db_commit;;
         mret db_mitigation
     end)
    (λ e, match e with
          | HTTPException _ _ => raise e
          | _ => raise (HTTPException 500 ("Failed to create mitigation: " +:+ exn_str e))
          end).

(** [POST /mitigations]: the body is parsed into [MitigationCreate] before
    the endpoint function is entered. *)
Definition post_mitigation (body : MitigationCreate) : M MitigationRecord :=
  mitigation ← MitigationCreate_validate body;
  create_mitigation mitigation.

Definition get_mitigation (mitigation_id : uuid) : M MitigationRecord :=
  mitigation ← query (λ db, first_where (λ m, mit_id m = mitigation_id) (mitigations db));
  match mitigation with
  | None => raise (HTTPException 404 "Mitigation not found")
  | Some m => mret m
  end.

Definition with_status (status : string) (now : datetime) (m : MitigationRecord) :=
  {| mit_id := mit_id m; mit_customer_id := mit_customer_id m;
     mit_risk_level := mit_risk_level m; mit_mitigation_type := mit_mitigation_type m;
     mit_description := mit_description m; mit_assigned_to := mit_assigned_to m;
     mit_due_date := mit_due_date m; mit_created_at := mit_created_at m;
     mit_updated_at := Some now; mit_status := status |}.

Definition update_mitigation_status (mitigation_id : uuid) (status : string)
    : M MitigationRecord :=
  if decide (status ∉ valid_statuses) then
    raise (HTTPException 400
             ("Invalid status. Must be one of: " +:+ String.concat ", " valid_statuses))
  else
    mitigation ← query (λ db, first_where (λ m, mit_id m = mitigation_id) (mitigations db));
    match mitigation with
    | None => raise (HTTPException 404 "Mitigation not found")
    | Some m =>
      now ← datetime_utcnow;
      let m' := with_status status now m in
      update_working (set_mitigations (update_where (λ r, mit_id r = mit_id m) (λ _, m')));;
      db_commit;;
      mret m'
    end.

(** [GET /mitigations]. [if customer_id:] holds for every uuid, [if status:]
    fails for the empty string.  [skip] and [limit] arrive validated by the
    route ([skip >= 0], [1 <= limit <= 500]). *)
Definition list_mitigations (customer_id : option uuid) (status : option string)
    (skip limit : nat) : M (list MitigationRecord) :=
  try_except
    (query (λ db,
       let query0 := mitigations db in
       let query1 := match customer_id with
                     | Some cid => filter (λ m, mit_customer_id m = cid) query0
                     | None => query0
                     end in
       let query2 := match status with
                     | Some st => if decide (st = "") then query1
                                  else filter (λ m, mit_status m = st) query1
                     | None => query1
                     end in
       take limit (drop skip (order_by_desc mit_created_at query2))))
    (λ e, raise (HTTPException 500 ("Failed to list mitigations: " +:+ exn_str e))).

End Mitigations.

(** ** Customers ([api/endpoints/customers.py]) *)

(** Values of the response dictionaries. *)
Inductive jval :=
| JNull
| JStr (s : string)
| JUuid (u : uuid)
| JDatetime (t : datetime)
| JFloat (q : Q)
| JFeatures (d : gmap string Q).

Definition opt_jval {A} (f : A → jval) (o : option A) : jval :=
  match o with Some a => f a | None => JNull end.

Record CustomerCreate := {
  cc_name : string;
  cc_email : option string;
  cc_phone : option string;
  cc_external_id : option string }.

(** [CustomerBase] as an update: [dict(exclude_unset=True)] has [name] and
    those of [email], [phone] that the body set (possibly to null). *)
Record CustomerBase := {
  cb_name : string;
  cb_email : option (option string);
  cb_phone : option (option string) }.

Definition new_feature (new_id : uuid) (customer_id : uuid) (feature_name : string)
    (value : Q) (now : datetime) : CustomerFeatureRecord :=
  {| feat_id := new_id; feat_customer_id := customer_id;
     feat_feature_name := feature_name; feat_feature_value := value;
     feat_recorded_at := now |}.

(** [db.add(CustomerFeatureRecord(customer_id, feature_name, feature_value))];
    [id] and [recorded_at] take their column defaults. *)
Definition add_feature (customer_id : uuid) (feature_name : string) (value : Q) : M unit :=
  new_id ← fresh_uuid;
  now ← datetime_utcnow;
  update_working (set_customer_features
    (λ l, l ++ [new_feature new_id customer_id feature_name value now])).

Definition with_value (value : Q) (now : datetime) (f : CustomerFeatureRecord) :=
  {| feat_id := feat_id f; feat_customer_id := feat_customer_id f;
     feat_feature_name := feat_feature_name f; feat_feature_value := value;
     feat_recorded_at := now |}.

Module Customers.

Definition get_customer (customer_id : uuid) : M (gmap string jval) :=
  customer ← query (λ db, first_where (λ c, cust_id c = customer_id) (customers db));
  match customer with
  | None => raise (HTTPException 404 "Customer not found")
  | Some customer =>
    latest_prediction ← query (latest_prediction_of (cust_id customer));
    features_records ← query (λ db,
      filter (λ f, feat_customer_id f = cust_id customer) (customer_features db));
    let features :=
      foldl (λ features feature,
               <[feat_feature_name feature := feat_feature_value feature]> features)
            (∅ : gmap string Q) features_records in
    let customer_data : gmap string jval :=
      <["features" := JFeatures features]>
      (<["updated_at" := opt_jval JDatetime (cust_updated_at customer)]>
      (<["created_at" := JDatetime (cust_created_at customer)]>
      (<["external_id" := opt_jval JStr (cust_external_id customer)]>
      (<["phone" := opt_jval JStr (cust_phone customer)]>
      (<["email" := opt_jval JStr (cust_email customer)]>
      (<["name" := JStr (cust_name customer)]>
      (<["id" := JUuid (cust_id customer)]> ∅))))))) in
    mret (match latest_prediction with
          | Some p =>
            <["last_prediction" := JDatetime (pred_prediction_timestamp p)]>
            (<["confidence_score" := opt_jval JFloat (pred_confidence_score p)]>
            (<["risk_level" := JStr (pred_risk_level p)]> customer_data))
          | None => customer_data
          end)
  end.

(** One round of the feature loop of [create_customer]. *)
Definition create_feature (customer_id : uuid) (feature_name : string)
    (feature_value : pyval) : M unit :=
  match feature_value with
  | PyNone => mret tt
  | _ => value ← py_float feature_value;
         add_feature customer_id feature_name value
  end.

Definition create_customer (customer : CustomerCreate) (features : option pydict)
    : M (gmap string jval) :=
  new_id ← fresh_uuid;
  now ← datetime_utcnow;
  let db_customer :=
    {| cust_id := new_id; cust_external_id := cc_external_id customer;
       cust_name := cc_name customer; cust_email := cc_email customer;
       cust_phone := cc_phone customer; cust_created_at := now;
       cust_updated_at := None |} in
  update_working (set_customers (λ l, l ++ [db_customer]));;
  db_commit;;
  match features with
  | Some features =>
    for_each features (λ '(feature_name, feature_value),
      create_feature (cust_id db_customer) feature_name feature_value);;
    db_commit
  | None => mret tt
  end;;
  get_customer (cust_id db_customer).

Definition apply_update (customer_update : CustomerBase) (now : datetime) (c : Customer) :=
  {| cust_id := cust_id c; cust_external_id := cust_external_id c;
     cust_name := cb_name customer_update;
     cust_email := default (cust_email c) (cb_email customer_update);
     cust_phone := default (cust_phone c) (cb_phone customer_update);
     cust_created_at := cust_created_at c; cust_updated_at := Some now |}.

(** One round of the feature loop of [update_customer]. *)
Definition update_feature (customer_id : uuid) (feature_name : string)
    (feature_value : pyval) : M unit :=
  match feature_value with
  | PyNone => mret tt
  | _ =>
    existing_feature ← query (λ db,
      first_where (λ f, feat_customer_id f = customer_id ∧ feat_feature_name f = feature_name)
                  (customer_features db));
    match existing_feature with
    | Some existing =>
      value ← py_float feature_value;
      now ← datetime_utcnow;
      update_working (set_customer_features
        (update_where (λ r, feat_id r = feat_id existing) (with_value value now)))
    | None =>
      value ← py_float feature_value;
      add_feature customer_id feature_name value
    end
  end.

Definition update_customer (customer_id : uuid) (customer_update : CustomerBase)
    (features_update : option pydict) : M (gmap string jval) :=
  db_customer ← query (λ db, first_where (λ c, cust_id c = customer_id) (customers db));
  match db_customer with
  | None => raise (HTTPException 404 "Customer not found")
  | Some db_customer =>
    now ← datetime_utcnow;
    update_working (set_customers
      (update_where (λ c, cust_id c = cust_id db_customer) (apply_update customer_update now)));;
    db_commit;;
    match features_update with
    | Some features_update =>
      for_each features_update (λ '(feature_name, feature_value),
        update_feature customer_id feature_name feature_value);;
      db_commit
    | None => mret tt
    end;;
    get_customer customer_id
  end.

Definition delete_customer (customer_id : uuid) : M unit :=
  db_customer ← query (λ db, first_where (λ c, cust_id c = customer_id) (customers db));
  match db_customer with
  | None => raise (HTTPException 404 "Customer not found")
  | Some db_customer =>
    update_working (set_risk_predictions
      (delete_where (λ p, pred_customer_id p = customer_id)));;
    update_working (set_customer_features
      (delete_where (λ f, feat_customer_id f = customer_id)));;
    update_working (set_customers (delete_where (λ c, cust_id c = cust_id db_customer)));;
    db_commit
  end.

End Customers.

(** ** The oracle wrapper ([models/ml_model.py]) *)

(** The unpickled classifier: [predict(X)[0]] gives a class label or raises
    (with a message); [predict_proba], when the object has it, gives the
    class probabilities of the row. *)
Record Classifier := {
  clf_predict : list pyval → string + Z;
  clf_predict_proba : option (list pyval → string + list Q) }.

Record RiskModel := {
  rm_model : Classifier;
  rm_features : option (list string) }.

Record PredictionResult := {
  risk_level : string;
  confidence_score : option Q;
  prediction : Z }.

Definition feature_keys : list string :=
  ["age"; "income"; "credit_score"; "account_balance";
   "num_transactions"; "transaction_frequency"; "average_transaction_amount"].

(** The single row of the feature array; a missing key becomes [0]. *)
Definition preprocess_features (self : RiskModel) (customer_data : pydict) : list pyval :=
  let keys := match rm_features self with
              | Some (f :: fs) => f :: fs
              | _ => feature_keys
              end in
  (λ key, default (PyInt 0) (dict_get key customer_data)) <$> keys.

(** [max(probabilities)]: the first greatest element; raises on an empty row. *)
Definition py_max (l : list Q) : string + Q :=
  match l with
  | [] => inl "max() arg is an empty sequence"
  | x :: l' => inr (foldl (λ m y, if Qlt_le_dec m y then y else m) x l')
  end.

(** [risk_levels = {0: "Low", 1: "Medium", 2: "High"}; risk_levels.get(k, d)] *)
Definition risk_levels_get (k : Z) (d : string) : string :=
  if decide (k = 0) then "Low"
  else if decide (k = 1) then "Medium"
  else if decide (k = 2) then "High"
  else d.

Definition failed_prediction {A} (msg : string) : exn + A :=
  inl (ValueError ("Failed to generate prediction: " +:+ msg)).

Definition RiskModel_predict (self : RiskModel) (customer_data : pydict)
    : exn + PredictionResult :=
  let features_array := preprocess_features self customer_data in
  match clf_predict (rm_model self) features_array with
  | inl msg => failed_prediction msg
  | inr prediction_result =>
    let finish confidence :=
      inr {| risk_level := risk_levels_get prediction_result "Unknown";
             confidence_score := confidence;
             prediction := prediction_result |} in
    match clf_predict_proba (rm_model self) with
    | None => finish None
    | Some predict_proba =>
      match predict_proba features_array with
      | inl msg => failed_prediction msg
      | inr probabilities =>
        match py_max probabilities with
        | inl msg => failed_prediction msg
        | inr m => finish (Some m)
        end
      end
    end
  end.

Definition lift_exn {A} (r : exn + A) : M A := λ _ s, (s, r).

(** [RiskPrediction.validate_risk_level] of [models/schemas.py], the schema
    of the predict endpoint's response. *)
Definition allowed_values : list string := ["Low"; "Medium"; "High"].

Definition validate_risk_level (v : string) : exn + string :=
  if decide (v ∉ allowed_values) then
    inl (ValueError "risk_level must be one of ['Low', 'Medium', 'High']")
  else inr v.

(** ** The latest risk level of every customer *)

(** [ORDER BY customer_id, prediction_timestamp DESC] *)
Definition by_customer_latest_first : relation RiskPredictionRecord := λ a b,
  (pred_customer_id a < pred_customer_id b)%N ∨
  (pred_customer_id a = pred_customer_id b ∧
   pred_prediction_timestamp b ≤ pred_prediction_timestamp a).

Global Instance by_customer_latest_first_dec a b : Decision (by_customer_latest_first a b).
Proof. unfold by_customer_latest_first. apply _. Defined.

(** [DISTINCT ON (key)]: the first row of every group of equal keys. *)
Fixpoint distinct_on {A K} `{EqDecision K} (key : A → K) (l : list A) : list A :=
  match l with
  | [] => []
  | x :: l' => x :: filter (λ y, key y ≠ key x) (distinct_on key l')
  end.

(** The subquery of both distribution functions:
    [query(customer_id, risk_level).distinct(customer_id)
       .order_by(customer_id, prediction_timestamp.desc())]. *)
Definition latest_rows (db : Database) : list RiskPredictionRecord :=
  distinct_on pred_customer_id (merge_sort by_customer_latest_first (risk_predictions db)).

Definition latest_risk_levels (db : Database) : list (uuid * string) :=
  (λ p, (pred_customer_id p, pred_risk_level p)) <$> latest_rows db.

(** [query(subquery).filter(subquery.c.risk_level == level).count()] *)
Definition count_level (level : string) (subquery : list (uuid * string)) : nat :=
  length (filter (λ row, row.2 = level) subquery).

Record RiskDistribution := {
  low_risk_count : nat;
  medium_risk_count : nat;
  high_risk_count : nat;
  total_customers : nat;
  last_updated : option datetime }.

(** ** Predictions ([api/endpoints/predictions.py]) *)

Module Predictions.

Definition predict_customer_risk (risk_model : RiskModel) (customer_id : uuid)
    (customer_features : pydict) : M RiskPredictionRecord :=
  try_except
    (customer ← query (λ db, first_where (λ c, cust_id c = customer_id) (customers db));
     match customer with
     | None => raise (HTTPException 404 "Customer not found")
     | Some _ =>
       prediction_result ← lift_exn (RiskModel_predict risk_model customer_features);
       new_id ← fresh_uuid;
       now ← datetime_utcnow;
       let db_prediction :=
         {| pred_id := new_id; pred_customer_id := customer_id;
            pred_risk_level := risk_level prediction_result;
            pred_confidence_score := confidence_score prediction_result;
            pred_prediction_timestamp := now |} in
       update_working (set_risk_predictions (λ l, l ++ [db_prediction]));;
       db_commit;;
       mret db_prediction
     end)
    (λ e, match e with
          | ValueError msg => raise (HTTPException 400 msg)
          | _ => raise (HTTPException 500 ("Prediction error: " +:+ exn_str e))
          end).

Definition get_risk_distribution : M RiskDistribution :=
  try_except
    (subquery ← query latest_risk_levels;
     let low_risk := count_level "Low" subquery in
     let medium_risk := count_level "Medium" subquery in
     let high_risk := count_level "High" subquery in
     let total_customers := (low_risk + medium_risk + high_risk)%nat in
     mret {| low_risk_count := low_risk; medium_risk_count := medium_risk;
             high_risk_count := high_risk; total_customers := total_customers;
             last_updated := None |})
    (λ e, raise (HTTPException 500 ("Failed to retrieve risk statistics: " +:+ exn_str e))).

End Predictions.

(** ** The risk service ([services/risk_service.py]) *)

Module RiskService.

(** One round of the feature loop of [predict_customer_risk]. *)
Definition store_feature (customer_id : uuid) (feature_name : string)
    (feature_value : pyval) : M unit :=
  if is_int_or_float feature_value then
    value ← py_float feature_value;
    add_feature customer_id feature_name value
  else mret tt.

Definition predict_customer_risk (risk_model : RiskModel) (customer_id : uuid)
    (features : pydict) : M RiskPredictionRecord :=
  customer ← query (λ db, first_where (λ c, cust_id c = customer_id) (customers db));
  match customer with
  | None => raise (ValueError "Customer not found")
  | Some _ =>
    prediction_result ← lift_exn (RiskModel_predict risk_model features);
    new_id ← fresh_uuid;
    now ← datetime_utcnow;
    let db_prediction :=
      {| pred_id := new_id; pred_customer_id := customer_id;
         pred_risk_level := risk_level prediction_result;
         pred_confidence_score := confidence_score prediction_result;
         pred_prediction_timestamp := now |} in
    update_working (set_risk_predictions (λ l, l ++ [db_prediction]));;
    for_each features (λ '(feature_name, feature_value),
      store_feature customer_id feature_name feature_value);;
    db_commit;;
    mret db_prediction
  end.

Definition get_risk_distribution : M RiskDistribution :=
  subquery ← query latest_risk_levels;
  let low_risk := count_level "Low" subquery in
  let medium_risk := count_level "Medium" subquery in
  let high_risk := count_level "High" subquery in
  total_customers ← query (λ db, length (customers db));
  now ← datetime_utcnow;
  mret {| low_risk_count := low_risk; medium_risk_count := medium_risk;
          high_risk_count := high_risk; total_customers := total_customers;
          last_updated := Some now |}.

(** The rows of the three-way join of [get_high_risk_customers]:
    [Customer JOIN latest_predictions ON Customer.id = customer_id
              JOIN RiskPredictionRecord ON id = prediction_id]. *)
Definition high_risk_join (db : Database) : list (Customer * RiskPredictionRecord) :=
  let latest_predictions :=
    (λ p, (pred_customer_id p, pred_id p)) <$> latest_rows db in
  c ← customers db;
  lp ← latest_predictions;
  if decide (cust_id c = lp.1) then
    p ← risk_predictions db;
    if decide (pred_id p = lp.2) then [(c, p)] else []
  else [].

Definition get_high_risk_customers (skip limit : nat)
    : M (list (Customer * RiskPredictionRecord)) :=
  query (λ db,
    take limit (drop skip
      (order_by_desc (λ cp, pred_prediction_timestamp cp.2)
         (filter (λ cp, pred_risk_level cp.2 = "High") (high_risk_join db))))).


(** [ORDER BY due_date] ascending, nulls last. *)
Definition due_date_asc : relation MitigationRecord := λ a b,
  match mit_due_date a, mit_due_date b with
  | Some x, Some y => x ≤ y
  | Some _, None => True
  | None, Some _ => False
  | None, None => True
  end.

Global Instance due_date_asc_dec a b : Decision (due_date_asc a b).
Proof. unfold due_date_asc. destruct (mit_due_date a), (mit_due_date b); apply _. Defined.

(** [status.in_(["Pending", "In Progress"])] and [due_date <= threshold];
    a null due date satisfies no comparison. *)
Definition due_soon (threshold : datetime) (m : MitigationRecord) : Prop :=
  mit_status m ∈ ["Pending"; "In Progress"] ∧
  match mit_due_date m with
  | Some due => due ≤ threshold
  | None => False
  end.

Global Instance due_soon_dec threshold m : Decision (due_soon threshold m).
Proof. unfold due_soon. destruct (mit_due_date m); apply _. Defined.


Definition get_customer_risk_history (customer_id : uuid) (limit : nat)
    : M (list RiskPredictionRecord) :=
  query (λ db,
    take limit (order_by_desc pred_prediction_timestamp
                  (filter (λ p, pred_customer_id p = customer_id) (risk_predictions db)))).

(** [ORDER BY feature_name, recorded_at DESC] *)
Definition by_name_latest_first : relation CustomerFeatureRecord := λ a b,
  String.ltb (feat_feature_name a) (feat_feature_name b) = true ∨
  (feat_feature_name a = feat_feature_name b ∧ feat_recorded_at b ≤ feat_recorded_at a).

Global Instance by_name_latest_first_dec a b : Decision (by_name_latest_first a b).
Proof. unfold by_name_latest_first. apply _. Defined.

Definition get_customer_features (customer_id : uuid) : M (gmap string Q) :=
  subquery ← query (λ db,
    distinct_on feat_feature_name
      (merge_sort by_name_latest_first
         (filter (λ f, feat_customer_id f = customer_id) (customer_features db))));
  mret (foldl (λ features row,
                 <[feat_feature_name row := feat_feature_value row]> features)
              (∅ : gmap string Q) subquery).

End RiskService.

(** ** Listing customers ([api/endpoints/customers.py]) *)


Module CustomerList.

(** One round of the loop of [list_customers]: the response object of a
    customer row. *)
Definition customer_data_of (customer : Customer) : M (gmap string jval) :=
  latest_prediction ← query (latest_prediction_of (cust_id customer));
  features_records ← query (λ db,
    filter (λ f, feat_customer_id f = cust_id customer) (customer_features db));
  let features :=
    foldl (λ features feature,
             <[feat_feature_name feature := feat_feature_value feature]> features)
          (∅ : gmap string Q) features_records in
  let customer_data : gmap string jval :=
    <["features" := JFeatures features]>
    (<["updated_at" := opt_jval JDatetime (cust_updated_at customer)]>
    (<["created_at" := JDatetime (cust_created_at customer)]>
    (<["external_id" := opt_jval JStr (cust_external_id customer)]>
    (<["phone" := opt_jval JStr (cust_phone customer)]>
    (<["email" := opt_jval JStr (cust_email customer)]>
    (<["name" := JStr (cust_name customer)]>
    (<["id" := JUuid (cust_id customer)]> ∅))))))) in
  mret (match latest_prediction with
        | Some p =>
          <["last_prediction" := JDatetime (pred_prediction_timestamp p)]>
          (<["confidence_score" := opt_jval JFloat (pred_confidence_score p)]>
          (<["risk_level" := JStr (pred_risk_level p)]> customer_data))
        | None => customer_data
        end).



End CustomerList.

(** ** The distribution schema ([models/schemas.py]) *)

(** [RiskDistribution.validate_total] *)
Definition validate_total (values : RiskDistribution) : exn + nat :=
  let expected_total :=
    (low_risk_count values + medium_risk_count values + high_risk_count values)%nat in
  if decide (total_customers values ≠ expected_total) then
    inl (ValueError ("total_customers must equal sum of risk counts (" +:+
                     pretty expected_total +:+ ")"))
  else inr (total_customers values).

(** ** Functions used in the statements *)

(** [float] on a value that passed [isinstance(v, (int, float))]. *)
Definition float_of (v : pyval) : Q :=
  match v with
  | PyBool b => if b then 1%Q else 0%Q
  | PyInt z => inject_Z z
  | PyFloat q => q
  | _ => 0%Q
  end.

(** The numeric entries of a feature dictionary, in order. *)
Definition numeric_items (d : pydict) : list (string * Q) :=
  omap (λ '(k, v), if is_int_or_float v then Some (k, float_of v) else None) d.

(** The feature rows added for [items], the first drawing the [n]-th uuid. *)
Fixpoint feature_rows (rt : runtime) (customer_id : uuid) (n : nat)
    (items : list (string * Q)) : list CustomerFeatureRecord :=
  match items with
  | [] => []
  | (k, q) :: rest =>
    new_feature (uuid4 rt n) customer_id k q (utcnow rt)
      :: feature_rows rt customer_id (S n) rest
  end.

(** The prediction row a predict request adds. *)
Definition new_prediction (rt : runtime) (customer_id : uuid) (r : PredictionResult) :=
  {| pred_id := uuid4 rt 0; pred_customer_id := customer_id;
     pred_risk_level := risk_level r; pred_confidence_score := confidence_score r;
     pred_prediction_timestamp := utcnow rt |}.

(** The customers that have at least one prediction record. *)
Definition customers_with_predictions (db : Database) : gset uuid :=
  list_to_set (pred_customer_id <$> risk_predictions db).

(** The floats of the supplied (non-null) values, in order, or the first
    conversion error. *)
Fixpoint supplied_values (rt : runtime) (d : pydict) : exn + list (string * Q) :=
  match d with
  | [] => inr []
  | (k, v) :: d' =>
    match v with
    | PyNone => supplied_values rt d'
    | _ =>
      match float rt v with
      | inl e => inl e
      | inr q =>
        match supplied_values rt d' with
        | inl e => inl e
        | inr items => inr ((k, q) :: items)
        end
      end
    end
  end.

(** The customer row [create_customer] adds. *)
Definition new_customer (rt : runtime) (customer : CustomerCreate) : Customer :=
  {| cust_id := uuid4 rt 0; cust_external_id := cc_external_id customer;
     cust_name := cc_name customer; cust_email := cc_email customer;
     cust_phone := cc_phone customer; cust_created_at := utcnow rt;
     cust_updated_at := None |}.


(** ** Sample data *)

(** A clock at 1000, uuids 100, 101, ..., and no string read as a float
    (no string occurs in the data below). *)
Definition rt0 : runtime :=
  {| utcnow := 1000; uuid4 := λ n, (100 + N.of_nat n)%N; float_of_str := λ _, None |}.

Definition jane : Customer :=
  {| cust_id := 1%N; cust_external_id := None; cust_name := "Jane Doe";
     cust_email := None; cust_phone := None; cust_created_at := 1;
     cust_updated_at := None |}.

Definition mk_pred (i c : N) (lvl : string) (t : Z) : RiskPredictionRecord :=
  {| pred_id := i; pred_customer_id := c; pred_risk_level := lvl;
     pred_confidence_score := None; pred_prediction_timestamp := t |}.

Definition db_jane : Database :=
  {| customers := [jane]; customer_features := [];
     risk_predictions := [mk_pred 10 1 "Low" 5; mk_pred 11 1 "High" 9];
     mitigations := [] |}.

Definition body_high : MitigationCreate :=
  {| mc_customer_id := 1%N; mc_risk_level := "High"; mc_mitigation_type := "Flag";
     mc_description := "call"; mc_assigned_to := None; mc_due_date := None |}.

Definition body_absent : MitigationCreate :=
  {| mc_customer_id := 2%N; mc_risk_level := "High"; mc_mitigation_type := "Flag";
     mc_description := "call"; mc_assigned_to := None; mc_due_date := None |}.

Definition body_low : MitigationCreate :=
  {| mc_customer_id := 1%N; mc_risk_level := "Low"; mc_mitigation_type := "Flag";
     mc_description := "call"; mc_assigned_to := None; mc_due_date := None |}.

Definition db_two : Database :=
  {| customers := [jane;
       {| cust_id := 2%N; cust_external_id := None; cust_name := "Sam Roe";
          cust_email := None; cust_phone := None; cust_created_at := 2;
          cust_updated_at := None |}];
     customer_features := [];
     risk_predictions := [mk_pred 10 1 "Low" 5; mk_pred 11 1 "High" 9];
     mitigations := [] |}.

Definition flag_for_jane : MitigationRecord :=
  {| mit_id := 30%N; mit_customer_id := 1%N; mit_risk_level := "High";
     mit_mitigation_type := "Flag"; mit_description := "call";
     mit_assigned_to := None; mit_due_date := None; mit_created_at := 10;
     mit_updated_at := None; mit_status := "Pending" |}.

Definition db_flagged : Database :=
  {| customers := [jane];
     customer_features := [new_feature 20%N 1%N "credit_score" (inject_Z 550) 3];
     risk_predictions := [mk_pred 11 1 "High" 9];
     mitigations := [flag_for_jane] |}.

(** A classifier that always answers class [k], without [predict_proba]. *)
Definition constant_model (k : Z) : RiskModel :=
  {| rm_model := {| clf_predict := λ _, inr k; clf_predict_proba := None |};
     rm_features := None |}.

(** [CustomerFeatures.dict()] of a request that sets income and credit
    score. *)
Definition jane_features : pydict :=
  [("age", PyNone); ("income", PyFloat (inject_Z 25000)); ("credit_score", PyInt 550);
   ("account_balance", PyNone); ("num_transactions", PyNone);
   ("transaction_frequency", PyNone); ("average_transaction_amount", PyNone)].


Definition sam : CustomerCreate :=
  {| cc_name := "Sam Roe"; cc_email := None; cc_phone := None; cc_external_id := None |}.

Definition sam_features : pydict := [("age", PyInt 30); ("tags", PyList [])].

(** ** More functions used in the statements *)

(** What the two optional filters of [list_mitigations] ask of a row. *)
Definition mitigation_matches (customer_id : option uuid) (status : option string)
    (m : MitigationRecord) : Prop :=
  match customer_id with Some cid => mit_customer_id m = cid | None => True end ∧
  match status with Some st => st = "" ∨ mit_status m = st | None => True end.

Global Instance mitigation_matches_dec customer_id status m :
  Decision (mitigation_matches customer_id status m).
Proof. unfold mitigation_matches. destruct customer_id, status; apply _. Defined.

(** The feature names the oracle reads: the unpickled list when it is
    non-empty, the seven default names otherwise. *)
Definition model_keys (self : RiskModel) : list string :=
  match rm_features self with
  | Some (f :: fs) => f :: fs
  | _ => feature_keys
  end.

(** The dictionary loop of the feature readers:
    [for row in rows: features[key row] = val row]. *)
Definition collect {A} (key : A → string) (val : A → Q) (m : gmap string Q)
    (l : list A) : gmap string Q :=
  foldl (λ features row, <[key row := val row]> features) m l.

(** Every prediction row and every feature row references a stored
    customer (the two foreign keys that [delete_customer] maintains). *)
Definition references_customers (db : Database) : Prop :=
  (∀ p, p ∈ risk_predictions db →
        ∃ c, c ∈ customers db ∧ cust_id c = pred_customer_id p) ∧
  (∀ f, f ∈ customer_features db →
        ∃ c, c ∈ customers db ∧ cust_id c = feat_customer_id f).

(** ** More sample data *)

Definition done_for_jane : MitigationRecord :=
  {| mit_id := 31%N; mit_customer_id := 1%N; mit_risk_level := "High";
     mit_mitigation_type := "Note"; mit_description := "called";
     mit_assigned_to := None; mit_due_date := Some 500; mit_created_at := 20;
     mit_updated_at := Some 25; mit_status := "Completed" |}.

Definition db_tracked : Database :=
  {| customers := [jane];
     customer_features := [new_feature 20%N 1%N "credit_score" (inject_Z 550) 3];
     risk_predictions := [mk_pred 10 1 "Low" 5; mk_pred 11 1 "High" 9];
     mitigations := [flag_for_jane; done_for_jane] |}.

(** A classifier that answers class 2 with probabilities 0.1, 0.2, 0.7. *)
Definition scoring_model : RiskModel :=
  {| rm_model := {| clf_predict := λ _, inr 2;
                    clf_predict_proba := Some (λ _, inr [1 # 10; 2 # 10; 7 # 10]%Q) |};
     rm_features := Some ["credit_score"; "income"] |}.


(** * Properties *)


(** ** Running a session *)

Ltac session :=
  unfold run, try_except, raise, query, update_working, db_commit, datetime_utcnow,
    fresh_uuid, lift_exn, mbind, mret, M_bind, M_ret in *; simpl in *.

Lemma bind_run {A B} (m : M A) (f : A → M B) rt s :
  (m ≫= f) rt s =
  match m rt s with
  | (s', inr a) => f a rt s'
  | (s', inl e) => (s', inl e)
  end.
Proof. reflexivity. Qed.

Lemma fresh_uuid_run rt s :
  fresh_uuid rt s =
  ({| committed := committed s; working := working s; drawn := S (drawn s) |},
   inr (uuid4 rt (drawn s))).
Proof. reflexivity. Qed.

Lemma datetime_utcnow_run rt s : datetime_utcnow rt s = (s, inr (utcnow rt)).
Proof. reflexivity. Qed.

Lemma update_working_run f rt s :
  update_working f rt s =
  ({| committed := committed s; working := f (working s); drawn := drawn s |}, inr tt).
Proof. reflexivity. Qed.

Lemma db_commit_run rt s :
  db_commit rt s =
  ({| committed := working s; working := working s; drawn := drawn s |}, inr tt).
Proof. reflexivity. Qed.

Lemma query_run {A} (q : Database → A) rt s : query q rt s = (s, inr (q (working s))).
Proof. reflexivity. Qed.

(** One statement of a session: the bind and the primitive under it. *)
Ltac step :=
  rewrite bind_run;
  first [ rewrite fresh_uuid_run | rewrite datetime_utcnow_run
        | rewrite update_working_run | rewrite db_commit_run | rewrite query_run ];
  cbv beta iota; cbn [drawn committed working].

Lemma first_where_None {A} (P : A → Prop) `{!∀ x, Decision (P x)} (l : list A) :
  first_where P l = None ↔ ∀ x, x ∈ l → ¬ P x.
Proof.
  unfold first_where. split.
  - intros Hh x Hx HP. apply head_None in Hh.
    assert (x ∈ filter P l) as Hin by (apply list_elem_of_filter; done).
    rewrite Hh in Hin. by apply not_elem_of_nil in Hin.
  - intros Hall. apply head_None.
    destruct (filter P l) as [|y k] eqn:E; [done|].
    assert (y ∈ filter P l) as Hin by (rewrite E; left).
    apply list_elem_of_filter in Hin as [HP Hy]. by destruct (Hall y Hy).
Qed.

Lemma first_where_Some {A} (P : A → Prop) `{!∀ x, Decision (P x)} (l : list A) x :
  first_where P l = Some x → x ∈ l ∧ P x.
Proof.
  unfold first_where. intros Hh.
  assert (x ∈ filter P l) as Hin.
  { destruct (filter P l); simplify_eq/=. left. }
  apply list_elem_of_filter in Hin. tauto.
Qed.

(** ** Mitigation status updates *)

(** C10: for a mitigation id that names no record and a status outside the
    four valid values, [update_mitigation_status] answers HTTP 400 (invalid
    status), not 404, and the database is unchanged. *)
Theorem update_status_rejects_value_before_lookup rt db mitigation_id status :
  (∀ m, m ∈ mitigations db → mit_id m ≠ mitigation_id) →
  status ∉ valid_statuses →
  run rt db (Mitigations.update_mitigation_status mitigation_id status) =
    (db, inl (HTTPException 400
       "Invalid status. Must be one of: Pending, In Progress, Completed, Cancelled")).
Proof.
  intros _ Hbad. unfold Mitigations.update_mitigation_status.
  destruct (decide (status ∉ valid_statuses)); [done | contradiction].
Qed.

Lemma update_status_rejects_value_before_lookup_witness :
  run rt0 db_flagged (Mitigations.update_mitigation_status 7%N "Done") =
    (db_flagged, inl (HTTPException 400
       "Invalid status. Must be one of: Pending, In Progress, Completed, Cancelled")).
Proof.
  apply update_status_rejects_value_before_lookup.
  - intros m Hm. apply list_elem_of_singleton in Hm as ->. by vm_compute.
  - vm_compute. intros H. by repeat (apply elem_of_cons in H as [H|H]; [discriminate H|]);
      apply not_elem_of_nil in H.
Defined.

(** With a valid status the same request reaches the lookup and answers 404. *)
Lemma update_status_missing_valid rt db mitigation_id status :
  (∀ m, m ∈ mitigations db → mit_id m ≠ mitigation_id) →
  status ∈ valid_statuses →
  run rt db (Mitigations.update_mitigation_status mitigation_id status) =
    (db, inl (HTTPException 404 "Mitigation not found")).
Proof.
  intros Habs Hok. unfold Mitigations.update_mitigation_status.
  destruct (decide (status ∉ valid_statuses)); [contradiction|].
  session.
  assert (first_where (λ m, mit_id m = mitigation_id) (mitigations db) = None) as ->; [|done].
  apply first_where_None. intros x Hx. by apply Habs.
Qed.

(** ** Ordering by a descending key *)

Section order_by.
Context {A : Type} (key : A → Z).

Global Instance key_desc_trans : Transitive (key_desc key).
Proof. unfold key_desc. intros x y z ??. lia. Qed.

Global Instance key_desc_total : Total (key_desc key).
Proof. unfold key_desc. intros x y. lia. Qed.

Lemma order_by_desc_head_None (l : list A) :
  head (order_by_desc key l) = None → l = [].
Proof.
  intros Hh. apply head_None in Hh. apply Permutation_nil_r.
  rewrite <- Hh. unfold order_by_desc. by rewrite merge_sort_Permutation.
Qed.

Lemma order_by_desc_head_Some (l : list A) x :
  head (order_by_desc key l) = Some x →
  x ∈ l ∧ ∀ y, y ∈ l → key y ≤ key x.
Proof.
  intros Hh.
  pose proof (StronglySorted_merge_sort (key_desc key) l) as Hs.
  pose proof (merge_sort_Permutation (key_desc key) l) as Hp.
  unfold order_by_desc in Hh.
  destruct (merge_sort (key_desc key) l) as [|z k]; simplify_eq/=.
  apply StronglySorted_cons in Hs as [Hall _].
  split.
  - rewrite <- Hp. left.
  - intros y Hy. rewrite <- Hp in Hy.
    apply elem_of_cons in Hy as [->|Hy]; [lia|].
    rewrite Forall_forall in Hall. by apply Hall.
Qed.
End order_by.

(** The latest prediction belongs to the customer and no prediction of the
    customer is newer. *)
Lemma latest_prediction_of_Some cid db p :
  latest_prediction_of cid db = Some p →
  p ∈ risk_predictions db ∧ pred_customer_id p = cid ∧
  ∀ q, q ∈ risk_predictions db → pred_customer_id q = cid →
       pred_prediction_timestamp q ≤ pred_prediction_timestamp p.
Proof.
  intros Hl. apply order_by_desc_head_Some in Hl as [Hin Hmax].
  apply list_elem_of_filter in Hin as [Hc Hin]. split_and!; [done..|].
  intros q Hq Hqc. apply Hmax. by apply list_elem_of_filter.
Qed.

Lemma latest_prediction_of_None cid db :
  latest_prediction_of cid db = None ↔
  ∀ q, q ∈ risk_predictions db → pred_customer_id q ≠ cid.
Proof.
  unfold latest_prediction_of. split.
  - intros Hl q Hq Hc. apply order_by_desc_head_None in Hl.
    assert (q ∈ filter (λ p, pred_customer_id p = cid) (risk_predictions db)) as Hin
      by (by apply list_elem_of_filter).
    rewrite Hl in Hin. by apply not_elem_of_nil in Hin.
  - intros Hall.
    assert (filter (λ p, pred_customer_id p = cid) (risk_predictions db) = []) as ->; [|done].
    apply head_None. by apply (first_where_None (λ p, pred_customer_id p = cid)).
Qed.

(** ** Creating mitigations *)

Lemma validate_passes body :
  mc_risk_level body = "High" → mc_mitigation_type body ∈ allowed_types →
  Mitigations.post_mitigation body = Mitigations.create_mitigation body.
Proof.
  intros Hl Ht. unfold Mitigations.post_mitigation, MitigationCreate_validate,
    validate_high_risk, validate_mitigation_type.
  rewrite Hl. destruct (decide (mc_mitigation_type body ∉ allowed_types)); [contradiction|].
  done.
Qed.

Lemma validate_rejects_label rt db body :
  mc_risk_level body ≠ "High" →
  ∃ errs, high_risk_only ∈ errs ∧
    run rt db (Mitigations.post_mitigation body) = (db, inl (ValidationError errs)).
Proof.
  intros Hl. unfold Mitigations.post_mitigation, MitigationCreate_validate, validate_high_risk.
  destruct (decide (mc_risk_level body ≠ "High")); [|contradiction].
  simpl. eexists. split; [|done]. left.
Qed.

Lemma post_mitigation_ok rt db body m db' :
  run rt db (Mitigations.post_mitigation body) = (db', inr m) →
  mc_risk_level body = "High" ∧
  (∃ c, c ∈ customers db ∧ cust_id c = mc_customer_id body) ∧
  current_risk_level (mc_customer_id body) db = Some "High" ∧
  mit_status m = "Pending" ∧ mitigations db' = mitigations db ++ [m].
Proof.
  intros Hrun.
  destruct (decide (mc_risk_level body = "High")) as [Hl|Hl]; last first.
  { destruct (validate_rejects_label rt db body Hl) as (? & _ & Hr). congruence. }
  destruct (decide (mc_mitigation_type body ∈ allowed_types)) as [Ht|Ht]; last first.
  { exfalso. revert Hrun.
    unfold Mitigations.post_mitigation, MitigationCreate_validate, validate_high_risk,
      validate_mitigation_type.
    rewrite Hl. destruct (decide (mc_mitigation_type body ∉ allowed_types)); [|contradiction].
    by session. }
  rewrite validate_passes in Hrun by done.
  unfold Mitigations.create_mitigation, current_risk_level in *. session.
  destruct (first_where _ (customers db)) as [c|] eqn:Ec; simpl in Hrun; [|done].
  apply first_where_Some in Ec.
  destruct (latest_prediction_of _ db) as [p|] eqn:Ep; simpl in Hrun; [|done].
  case_bool_decide; simpl in Hrun; [done|].
  simplify_eq/=. split_and!; eauto.
  f_equal. by destruct (decide (pred_risk_level p = "High")).
Qed.

Lemma create_mitigation_absent rt db body :
  (∀ c, c ∈ customers db → cust_id c ≠ mc_customer_id body) →
  run rt db (Mitigations.create_mitigation body) =
    (db, inl (HTTPException 404 "Customer not found")).
Proof.
  intros Habs. unfold Mitigations.create_mitigation. session.
  assert (first_where (λ c, cust_id c = mc_customer_id body) (customers db) = None) as ->;
    [|done].
  apply first_where_None. intros c Hc. by apply Habs.
Qed.

Lemma create_mitigation_not_high rt db body c :
  c ∈ customers db → cust_id c = mc_customer_id body →
  current_risk_level (mc_customer_id body) db ≠ Some "High" →
  run rt db (Mitigations.create_mitigation body) =
    (db, inl (HTTPException 400 high_risk_only)).
Proof.
  intros Hc Hid Hlvl. unfold Mitigations.create_mitigation, current_risk_level in *. session.
  destruct (first_where _ (customers db)) as [c'|] eqn:Ec; simpl.
  - destruct (latest_prediction_of _ db) as [p|]; simpl; [|done].
    case_bool_decide as Hp; simpl; [done|].
    destruct Hlvl. simpl. f_equal. by destruct (decide (pred_risk_level p = "High")).
  - exfalso. eapply (first_where_None (λ c, cust_id c = mc_customer_id body)); eauto.
Qed.

(** C1 (as the code has it): creation fails unless both the supplied label
    and the customer's latest prediction are "High", and the two checks are
    independent.  A label other than "High" is turned down by the request
    schema's validator, whatever the ledger says; with a "High" label and an
    existing customer, a missing or non-High latest prediction answers HTTP
    400, whatever the label's agreement; a customer that does not exist
    answers 404 before the ledger is read.  No failure changes the database. *)
Theorem mitigation_creation_gate rt db body :
  (∀ db' m, run rt db (Mitigations.post_mitigation body) = (db', inr m) →
     mc_risk_level body = "High" ∧
     current_risk_level (mc_customer_id body) db = Some "High") ∧
  (¬ (mc_risk_level body = "High" ∧
      current_risk_level (mc_customer_id body) db = Some "High") →
     ∃ e, run rt db (Mitigations.post_mitigation body) = (db, inl e)) ∧
  (mc_risk_level body ≠ "High" →
     ∃ errs, high_risk_only ∈ errs ∧
       run rt db (Mitigations.post_mitigation body) = (db, inl (ValidationError errs))) ∧
  (mc_risk_level body = "High" → mc_mitigation_type body ∈ allowed_types →
     (∃ c, c ∈ customers db ∧ cust_id c = mc_customer_id body) →
     current_risk_level (mc_customer_id body) db ≠ Some "High" →
     run rt db (Mitigations.post_mitigation body) =
       (db, inl (HTTPException 400 high_risk_only))) ∧
  (mc_risk_level body = "High" → mc_mitigation_type body ∈ allowed_types →
     (∀ c, c ∈ customers db → cust_id c ≠ mc_customer_id body) →
     run rt db (Mitigations.post_mitigation body) =
       (db, inl (HTTPException 404 "Customer not found"))).
Proof.
  split_and!.
  - intros db' m Hrun. apply post_mitigation_ok in Hrun. tauto.
  - intros Hnot.
    destruct (run rt db (Mitigations.post_mitigation body)) as [db' [e|m]] eqn:Hrun.
    + exists e. f_equal. clear Hnot. revert Hrun.
      unfold Mitigations.post_mitigation, MitigationCreate_validate,
        Mitigations.create_mitigation.
      destruct (validator_errors _ ++ validator_errors _); session; [|congruence].
      destruct (first_where _ (customers db)); simpl; [|congruence].
      destruct (latest_prediction_of _ db); simpl; [|congruence].
      case_bool_decide; simpl; congruence.
    + apply post_mitigation_ok in Hrun. tauto.
  - apply validate_rejects_label.
  - intros Hl Ht (c & Hc & Hid) Hlvl. rewrite validate_passes by done.
    by eapply create_mitigation_not_high.
  - intros Hl Ht Habs. rewrite validate_passes by done.
    by apply create_mitigation_absent.
Qed.

(** Against C1 as stated: a request for a customer that does not exist (so
    the ledger has no "High" level for it) answers 404, not 400; and a "Low"
    label on a customer whose ledger level is "High" is a schema validation
    error, not the endpoint's HTTP 400. *)
Lemma mitigation_failure_is_not_always_400 :
  current_risk_level 2%N db_jane = None ∧
  run rt0 db_jane (Mitigations.post_mitigation body_absent) =
    (db_jane, inl (HTTPException 404 "Customer not found")) ∧
  current_risk_level 1%N db_jane = Some "High" ∧
  run rt0 db_jane (Mitigations.post_mitigation body_low) =
    (db_jane, inl (ValidationError [high_risk_only])).
Proof. by vm_compute. Qed.

Lemma mitigation_creation_gate_witness :
  current_risk_level (mc_customer_id body_high) db_jane = Some "High" ∧
  (∃ e, run rt0 db_jane (Mitigations.post_mitigation body_low) = (db_jane, inl e)) ∧
  run rt0 db_jane (Mitigations.post_mitigation body_absent) =
    (db_jane, inl (HTTPException 404 "Customer not found")).
Proof.
  split_and!.
  - eapply (mitigation_creation_gate rt0 db_jane body_high). by vm_compute.
  - apply (mitigation_creation_gate rt0 db_jane body_low). by intros [? _].
  - apply (mitigation_creation_gate rt0 db_jane body_absent); [done|by vm_compute; left|].
    intros c Hc. apply list_elem_of_singleton in Hc as ->. by vm_compute.
Defined.

(** ** The customer snapshot *)

Lemma first_where_exists {A} (P : A → Prop) `{!∀ x, Decision (P x)} (l : list A) x :
  x ∈ l → P x → ∃ y, first_where P l = Some y.
Proof.
  intros Hx HP. destruct (first_where P l) as [y|] eqn:E; [eauto|].
  exfalso. eapply first_where_None; eauto.
Qed.



Lemma snapshot_without_predictions :
  ∃ data, run rt0 db_two (Customers.get_customer 2%N) = (db_two, inr data) ∧
          data !! "risk_level" = None ∧ data !! "name" = Some (JStr "Sam Roe").
Proof. eexists. split; [reflexivity|]. by vm_compute. Qed.

(** ** Deleting a customer *)

Lemma delete_where_spec {A} (P : A → Prop) `{!∀ x, Decision (P x)} (l : list A) x :
  x ∈ delete_where P l ↔ x ∈ l ∧ ¬ P x.
Proof. unfold delete_where. rewrite list_elem_of_filter. tauto. Qed.

(** What [delete_customer] does for an existing customer: the customer row
    and every feature and prediction row that references it are gone; the
    mitigations table is not touched. *)
Lemma delete_customer_effect rt db customer_id :
  (∃ c, c ∈ customers db ∧ cust_id c = customer_id) →
  ∃ db', run rt db (Customers.delete_customer customer_id) = (db', inr tt) ∧
    (∀ c, c ∈ customers db' → cust_id c ≠ customer_id) ∧
    (∀ f, f ∈ customer_features db' → feat_customer_id f ≠ customer_id) ∧
    (∀ p, p ∈ risk_predictions db' → pred_customer_id p ≠ customer_id) ∧
    mitigations db' = mitigations db.
Proof.
  intros (c & Hc & Hid).
  destruct (first_where_exists (λ c, cust_id c = customer_id) _ c Hc Hid) as [c' Ec].
  pose proof (first_where_Some _ _ _ Ec) as [_ Hid'].
  unfold Customers.delete_customer. session. rewrite Ec. simpl.
  eexists. split; [done|]. simpl. split_and!; [| | |done].
  - intros x Hx. apply delete_where_spec in Hx as [_ Hx]. congruence.
  - intros x Hx. by apply delete_where_spec in Hx as [_ Hx].
  - intros x Hx. by apply delete_where_spec in Hx as [_ Hx].
Qed.

(** A mitigation of the deleted customer is still stored afterwards and can
    still be fetched. *)
Lemma delete_customer_mitigation_survives rt db customer_id m :
  (∃ c, c ∈ customers db ∧ cust_id c = customer_id) →
  m ∈ mitigations db → mit_customer_id m = customer_id →
  ∃ db' m',
    run rt db (Customers.delete_customer customer_id) = (db', inr tt) ∧
    m ∈ mitigations db' ∧
    run rt db' (Mitigations.get_mitigation (mit_id m)) = (db', inr m').
Proof.
  intros Hc Hm Hid.
  destruct (delete_customer_effect rt db customer_id Hc) as (db' & Hrun & _ & _ & _ & Hmit).
  destruct (first_where_exists (λ x, mit_id x = mit_id m) (mitigations db') m)
    as [m' Em]; [by rewrite Hmit | done |].
  exists db', m'. split_and!; [done | by rewrite Hmit |].
  unfold Mitigations.get_mitigation. session. by rewrite Em.
Qed.


(** ** Predicting *)

Lemma float_numeric rt v : is_int_or_float v = true → float rt v = inr (float_of v).
Proof. by destruct v. Qed.

Lemma set_customer_features_app rows rows' w :
  set_customer_features (λ l, l ++ rows') (set_customer_features (λ l, l ++ rows) w) =
  set_customer_features (λ l, l ++ rows ++ rows') w.
Proof. unfold set_customer_features. simpl. by rewrite app_assoc. Qed.

Lemma set_customer_features_nil w : set_customer_features (λ l, l ++ []) w = w.
Proof. destruct w. unfold set_customer_features. simpl. by rewrite app_nil_r. Qed.

Lemma add_feature_run customer_id feature_name value rt s :
  add_feature customer_id feature_name value rt s =
  ({| committed := committed s;
      working := set_customer_features
        (λ l, l ++ [new_feature (uuid4 rt (drawn s)) customer_id feature_name value
                      (utcnow rt)]) (working s);
      drawn := S (drawn s) |}, inr tt).
Proof. reflexivity. Qed.

Lemma service_feature_loop rt customer_id features s :
  for_each features (λ '(feature_name, feature_value),
      RiskService.store_feature customer_id feature_name feature_value) rt s =
  ({| committed := committed s;
      working := set_customer_features
        (λ l, l ++ feature_rows rt customer_id (drawn s) (numeric_items features))
        (working s);
      drawn := (drawn s + length (numeric_items features))%nat |}, inr tt).
Proof.
  revert s. induction features as [|[k v] features IH]; intros s.
  - simpl. rewrite set_customer_features_nil, Nat.add_0_r. by destruct s.
  - cbn [for_each]. unfold numeric_items. cbn [omap list_omap].
    fold (numeric_items features).
    unfold mbind at 1, M_bind. unfold RiskService.store_feature at 1.
    destruct (is_int_or_float v) eqn:Hv.
    + unfold mbind at 1, M_bind. unfold py_float.
      rewrite (float_numeric rt v Hv), add_feature_run, IH. simpl.
      rewrite set_customer_features_app. simpl. do 2 f_equal. lia.
    + simpl. by rewrite IH.
Qed.

(** [RiskService.predict_customer_risk], outcome by outcome. *)
Lemma service_predict_spec rt db risk_model customer_id features :
  run rt db (RiskService.predict_customer_risk risk_model customer_id features) =
  match first_where (λ c, cust_id c = customer_id) (customers db) with
  | None => (db, inl (ValueError "Customer not found"))
  | Some _ =>
    match RiskModel_predict risk_model features with
    | inl e => (db, inl e)
    | inr r =>
      let p := new_prediction rt customer_id r in
      (set_customer_features
         (λ l, l ++ feature_rows rt customer_id 1 (numeric_items features))
         (set_risk_predictions (λ l, l ++ [p]) db), inr p)
    end
  end.
Proof.
  unfold RiskService.predict_customer_risk, run.
  unfold mbind at 1, M_bind. unfold query at 1. simpl.
  destruct (first_where _ (customers db)); [|done].
  unfold mbind at 1, M_bind. unfold lift_exn.
  destruct (RiskModel_predict risk_model features) as [e|r]; [done|].
  unfold mbind at 1, M_bind, fresh_uuid. simpl.
  unfold mbind at 1, M_bind, datetime_utcnow. simpl.
  unfold mbind at 1, M_bind. unfold update_working at 1. simpl.
  unfold mbind at 1, M_bind. rewrite service_feature_loop. simpl.
  done.
Qed.

(** The service appends one prediction row and one feature row for each
    numeric entry of the request, and returns the prediction row. *)
Lemma service_predict_ok rt db risk_model customer_id features r :
  (∃ c, c ∈ customers db ∧ cust_id c = customer_id) →
  RiskModel_predict risk_model features = inr r →
  ∃ db' p rows,
    run rt db (RiskService.predict_customer_risk risk_model customer_id features) =
      (db', inr p) ∧
    risk_predictions db' = risk_predictions db ++ [p] ∧
    pred_customer_id p = customer_id ∧ pred_risk_level p = risk_level r ∧
    pred_confidence_score p = confidence_score r ∧
    customer_features db' = customer_features db ++ rows ∧
    (λ f, (feat_customer_id f, feat_feature_name f, feat_feature_value f)) <$> rows =
      (λ kq, (customer_id, kq.1, kq.2)) <$> numeric_items features ∧
    customers db' = customers db ∧ mitigations db' = mitigations db.
Proof.
  intros (c & Hc & Hid) Hr.
  destruct (first_where_exists (λ c, cust_id c = customer_id) _ c Hc Hid) as [c' Ec].
  rewrite service_predict_spec, Ec, Hr. simpl.
  eexists _, _, _. split; [done|]. simpl. split_and!; try done.
  generalize 1%nat. induction (numeric_items features) as [|[k q] items IH]; intros n.
  - done.
  - simpl. by rewrite IH.
Qed.

(** The predict endpoint, outcome by outcome: it writes the prediction row
    only. *)
Lemma endpoint_predict_spec rt db risk_model customer_id customer_features :
  run rt db (Predictions.predict_customer_risk risk_model customer_id customer_features) =
  match first_where (λ c, cust_id c = customer_id) (customers db) with
  | None => (db, inl (HTTPException 500 "Prediction error: 404: Customer not found"))
  | Some _ =>
    match RiskModel_predict risk_model customer_features with
    | inl (ValueError msg) => (db, inl (HTTPException 400 msg))
    | inl e => (db, inl (HTTPException 500 ("Prediction error: " +:+ exn_str e)))
    | inr r =>
      let p := new_prediction rt customer_id r in
      (set_risk_predictions (λ l, l ++ [p]) db, inr p)
    end
  end.
Proof.
  unfold Predictions.predict_customer_risk. session.
  destruct (first_where _ (customers db)); [|done]. simpl.
  destruct (RiskModel_predict risk_model customer_features) as [[]|r]; done.
Qed.

Lemma endpoint_predict_features_unchanged rt db risk_model customer_id features :
  customer_features
    (run rt db (Predictions.predict_customer_risk risk_model customer_id features)).1 =
  customer_features db.
Proof.
  rewrite endpoint_predict_spec.
  destruct (first_where _ (customers db)); [|done].
  destruct (RiskModel_predict risk_model features) as [[]|r]; done.
Qed.

(** C6 at the predict endpoint: for an existing customer, an oracle that
    answers "High" and two numeric features in the request, the endpoint
    stores the prediction and no feature row; the service, on the same
    request, stores the same prediction and the two feature rows. *)
Theorem predict_endpoint_stores_no_features :
  let p := mk_pred 100 1 "High" 1000 in
  run rt0 db_jane (Predictions.predict_customer_risk (constant_model 2) 1%N jane_features) =
    (set_risk_predictions (λ l, l ++ [p]) db_jane, inr p) ∧
  customer_features (set_risk_predictions (λ l, l ++ [p]) db_jane) = [] ∧
  run rt0 db_jane (RiskService.predict_customer_risk (constant_model 2) 1%N jane_features) =
    (set_customer_features
       (λ l, l ++ [new_feature 101%N 1%N "income" (inject_Z 25000) 1000;
                   new_feature 102%N 1%N "credit_score" (inject_Z 550) 1000])
       (set_risk_predictions (λ l, l ++ [p]) db_jane), inr p).
Proof. by vm_compute. Qed.

(** ** Stored risk levels *)

Lemma risk_levels_get_in_range k d :
  0 ≤ k ≤ 2 → risk_levels_get k d ∈ allowed_values.
Proof.
  intros Hk. unfold risk_levels_get, allowed_values.
  repeat case_decide; try lia; set_solver.
Qed.

Lemma risk_levels_get_out_of_range k d :
  ¬ (0 ≤ k ≤ 2) → risk_levels_get k d = d.
Proof. intros Hk. unfold risk_levels_get. repeat case_decide; try lia; done. Qed.

Lemma RiskModel_predict_level risk_model customer_data r :
  RiskModel_predict risk_model customer_data = inr r →
  clf_predict (rm_model risk_model) (preprocess_features risk_model customer_data) =
    inr (prediction r) ∧
  risk_level r = risk_levels_get (prediction r) "Unknown".
Proof.
  unfold RiskModel_predict, failed_prediction.
  destruct (clf_predict _ _) as [msg|k]; [done|].
  destruct (clf_predict_proba _) as [proba|]; [|by intros [= <-]].
  destruct (proba _) as [msg|probs]; [done|].
  destruct (py_max probs); [done|]. by intros [= <-].
Qed.

(** C8 at a classifier whose label is outside 0..2: the predict endpoint
    stores and commits a prediction row whose level is "Unknown", a value
    the response schema's [validate_risk_level] refuses. *)
Theorem unknown_level_is_stored :
  let p := mk_pred 100 1 "Unknown" 1000 in
  run rt0 db_jane (Predictions.predict_customer_risk (constant_model 3) 1%N jane_features) =
    (set_risk_predictions (λ l, l ++ [p]) db_jane, inr p) ∧
  p ∈ risk_predictions (set_risk_predictions (λ l, l ++ [p]) db_jane) ∧
  pred_risk_level p ∉ allowed_values ∧
  validate_risk_level (pred_risk_level p) =
    inl (ValueError "risk_level must be one of ['Low', 'Medium', 'High']").
Proof.
  split_and!; try by vm_compute.
  - simpl. set_solver.
  - vm_compute. set_solver.
Qed.

(** When the classifier's label is one of 0, 1, 2 the stored level is one
    of the three values, and a failed request stores nothing. *)
Lemma predict_endpoint_levels rt db risk_model customer_id features db' res :
  run rt db (Predictions.predict_customer_risk risk_model customer_id features) = (db', res) →
  match res with
  | inl _ => db' = db
  | inr p =>
    risk_predictions db' = risk_predictions db ++ [p] ∧
    ∃ k, clf_predict (rm_model risk_model) (preprocess_features risk_model features) = inr k ∧
         pred_risk_level p = risk_levels_get k "Unknown" ∧
         (0 ≤ k ≤ 2 → pred_risk_level p ∈ allowed_values)
  end.
Proof.
  rewrite endpoint_predict_spec.
  destruct (first_where _ (customers db)); [|by intros [= <- <-]].
  destruct (RiskModel_predict risk_model features) as [[]|r] eqn:Hr;
    try by intros [= <- <-].
  intros [= <- <-]. simpl. split; [done|].
  apply RiskModel_predict_level in Hr as [Hk Hl].
  exists (prediction r). split_and!; [done..|].
  intros Hrange. rewrite Hl. by apply risk_levels_get_in_range.
Qed.

(** ** The risk distribution *)

Section distinct_on.
Context {A K : Type} `{EqDecision K} (key : A → K).

Lemma distinct_on_elem_of (l : list A) x : x ∈ distinct_on key l → x ∈ l.
Proof.
  induction l as [|a l IH]; simpl; [done|].
  rewrite !elem_of_cons, list_elem_of_filter. naive_solver.
Qed.

Lemma distinct_on_keys (l : list A) k :
  k ∈ key <$> distinct_on key l ↔ k ∈ key <$> l.
Proof.
  induction l as [|a l IH]; simpl; [done|].
  rewrite !elem_of_cons, <- IH, !list_elem_of_fmap.
  setoid_rewrite list_elem_of_filter.
  destruct (decide (k = key a)); naive_solver.
Qed.

Lemma NoDup_key_filter (P : A → Prop) `{!∀ x, Decision (P x)} (l : list A) :
  NoDup (key <$> l) → NoDup (key <$> filter P l).
Proof.
  induction l as [|b l IH]; simpl; [done|].
  intros [Hb Hl]%NoDup_cons. rewrite filter_cons.
  case_decide; [|by apply IH].
  simpl. apply NoDup_cons. split; [|by apply IH].
  intros (y & Hy & Hin)%list_elem_of_fmap.
  apply list_elem_of_filter in Hin as [_ Hin].
  apply Hb, list_elem_of_fmap. eauto.
Qed.

Lemma distinct_on_NoDup (l : list A) : NoDup (key <$> distinct_on key l).
Proof.
  induction l as [|a l IH]; simpl; [constructor|].
  apply NoDup_cons. split.
  - intros (y & Hy & Hin)%list_elem_of_fmap.
    apply list_elem_of_filter in Hin as [Hne _]. congruence.
  - by apply NoDup_key_filter.
Qed.

(** In a sorted list the row kept for a key precedes, in the order, every
    row of that key. *)
Lemma distinct_on_first (R : relation A) `{!Reflexive R} (l : list A) x y :
  StronglySorted R l → x ∈ distinct_on key l → y ∈ l → key y = key x → R x y.
Proof.
  induction l as [|a l IH]; simpl; [by intros _ ?%not_elem_of_nil|].
  intros [Hall Hs]%StronglySorted_cons Hx Hy Hk.
  rewrite Forall_forall in Hall.
  apply elem_of_cons in Hx as [->|Hx].
  - apply elem_of_cons in Hy as [->|Hy]; [done | by apply Hall].
  - apply list_elem_of_filter in Hx as [Hne Hx].
    apply elem_of_cons in Hy as [->|Hy]; [congruence|]. by apply IH.
Qed.
End distinct_on.

Global Instance by_customer_latest_first_trans : Transitive by_customer_latest_first.
Proof. unfold by_customer_latest_first. intros x y z ??. lia. Qed.

Global Instance by_customer_latest_first_total : Total by_customer_latest_first.
Proof. unfold by_customer_latest_first. intros x y. lia. Qed.

Global Instance by_customer_latest_first_refl : Reflexive by_customer_latest_first.
Proof. unfold by_customer_latest_first. intros x. lia. Qed.

Lemma latest_rows_elem_of db p :
  p ∈ latest_rows db →
  p ∈ risk_predictions db ∧
  ∀ q, q ∈ risk_predictions db → pred_customer_id q = pred_customer_id p →
       pred_prediction_timestamp q ≤ pred_prediction_timestamp p.
Proof.
  unfold latest_rows. intros Hp. split.
  - apply distinct_on_elem_of in Hp. by rewrite merge_sort_Permutation in Hp.
  - intros q Hq Hc.
    assert (by_customer_latest_first p q) as HR.
    { eapply (distinct_on_first pred_customer_id); [..|exact Hc]; [apply _| |done|].
      - apply (StronglySorted_merge_sort by_customer_latest_first).
      - by rewrite merge_sort_Permutation. }
    unfold by_customer_latest_first in HR. lia.
Qed.

Lemma latest_rows_customers db :
  list_to_set (pred_customer_id <$> latest_rows db) = customers_with_predictions db.
Proof.
  unfold latest_rows, customers_with_predictions. apply set_eq. intros k.
  rewrite !elem_of_list_to_set, distinct_on_keys.
  by rewrite merge_sort_Permutation.
Qed.

Lemma latest_rows_length db :
  length (latest_rows db) = size (customers_with_predictions db).
Proof.
  rewrite <- latest_rows_customers, size_list_to_set, length_fmap; [done|].
  apply distinct_on_NoDup.
Qed.


(** The three buckets and the rows of any other level make up the subquery. *)
Lemma count_level_partition (rows : list (uuid * string)) :
  (count_level "Low" rows + count_level "Medium" rows + count_level "High" rows +
   length (filter (λ row, row.2 ∉ allowed_values) rows))%nat = length rows.
Proof.
  unfold count_level, allowed_values.
  induction rows as [|[c lvl] rows IH]; [done|].
  rewrite !filter_cons. simpl.
  destruct (decide (lvl = "Low")) as [->|]; [|destruct (decide (lvl = "Medium")) as [->|];
    [|destruct (decide (lvl = "High")) as [->|]]].
  - rewrite decide_False by set_solver. simpl. lia.
  - rewrite decide_False by set_solver. simpl. lia.
  - rewrite decide_False by set_solver. simpl. lia.
  - rewrite decide_True by set_solver. simpl. lia.
Qed.




Lemma endpoint_distribution_spec rt db :
  run rt db Predictions.get_risk_distribution =
  (db, inr {| low_risk_count := count_level "Low" (latest_risk_levels db);
              medium_risk_count := count_level "Medium" (latest_risk_levels db);
              high_risk_count := count_level "High" (latest_risk_levels db);
              total_customers :=
                (count_level "Low" (latest_risk_levels db) +
                 count_level "Medium" (latest_risk_levels db) +
                 count_level "High" (latest_risk_levels db))%nat;
              last_updated := None |}).
Proof. reflexivity. Qed.

Lemma service_distribution_spec rt db :
  run rt db RiskService.get_risk_distribution =
  (db, inr {| low_risk_count := count_level "Low" (latest_risk_levels db);
              medium_risk_count := count_level "Medium" (latest_risk_levels db);
              high_risk_count := count_level "High" (latest_risk_levels db);
              total_customers := length (customers db);
              last_updated := Some (utcnow rt) |}).
Proof. reflexivity. Qed.

(** Without any assumption on the stored levels: the three buckets and the
    customers whose latest level is none of the three add up to the
    customers that have a prediction. *)
Lemma distribution_counts_general db :
  (count_level "Low" (latest_risk_levels db) + count_level "Medium" (latest_risk_levels db) +
   count_level "High" (latest_risk_levels db) +
   length (filter (λ row, row.2 ∉ allowed_values) (latest_risk_levels db)))%nat =
  size (customers_with_predictions db).
Proof.
  rewrite count_level_partition. unfold latest_risk_levels.
  by rewrite length_fmap, latest_rows_length.
Qed.



(** ** Two totals *)

(** C5: the statistics endpoint's total is the sum of its three buckets, the
    service's total is the number of customer rows; with customer ids
    unique, predictions referencing stored customers, and some customer
    without prediction, the endpoint's total is smaller than the service's. *)
Theorem two_totals_differ rt db :
  NoDup (cust_id <$> customers db) →
  (∀ p, p ∈ risk_predictions db →
     ∃ c, c ∈ customers db ∧ cust_id c = pred_customer_id p) →
  (∃ c, c ∈ customers db ∧
     ∀ p, p ∈ risk_predictions db → pred_customer_id p ≠ cust_id c) →
  ∃ d d',
    run rt db Predictions.get_risk_distribution = (db, inr d) ∧
    run rt db RiskService.get_risk_distribution = (db, inr d') ∧
    total_customers d =
      (low_risk_count d + medium_risk_count d + high_risk_count d)%nat ∧
    total_customers d' = length (customers db) ∧
    (low_risk_count d', medium_risk_count d', high_risk_count d') =
      (low_risk_count d, medium_risk_count d, high_risk_count d) ∧
    (total_customers d < total_customers d')%nat ∧
    total_customers d ≠ total_customers d'.
Proof.
  intros Hpk Hfk (c0 & Hc0 & Hnone). eexists _, _.
  split; [apply endpoint_distribution_spec|].
  split; [apply service_distribution_spec|]. simpl.
  assert ((count_level "Low" (latest_risk_levels db) +
           count_level "Medium" (latest_risk_levels db) +
           count_level "High" (latest_risk_levels db) < length (customers db))%nat) as Hlt.
  { pose proof (distribution_counts_general db) as Hgen.
    assert ((size (customers_with_predictions db) < length (customers db))%nat) as Hs;
      [|lia].
    rewrite <- (length_fmap cust_id), <- (size_list_to_set (C:=gset uuid)) by done.
    apply subset_size. split.
    - intros k Hk. unfold customers_with_predictions in Hk.
      apply elem_of_list_to_set, list_elem_of_fmap in Hk as (p & -> & Hp).
      destruct (Hfk p Hp) as (c & Hc & <-).
      by apply elem_of_list_to_set, list_elem_of_fmap_2.
    - intros Hsub. specialize (Hsub (cust_id c0)).
      unfold customers_with_predictions in Hsub.
      rewrite !elem_of_list_to_set in Hsub.
      assert (cust_id c0 ∈ pred_customer_id <$> risk_predictions db)
        as (p & Hid & Hp)%list_elem_of_fmap
        by (by apply Hsub, list_elem_of_fmap_2).
      by apply (Hnone p Hp). }
  split_and!; try done. lia.
Qed.

Lemma two_totals_differ_witness :
  ∃ d d',
    run rt0 db_two Predictions.get_risk_distribution = (db_two, inr d) ∧
    run rt0 db_two RiskService.get_risk_distribution = (db_two, inr d') ∧
    total_customers d = 1%nat ∧ total_customers d' = 2%nat.
Proof.
  destruct (two_totals_differ rt0 db_two) as (d & d' & Hd & Hd' & Hsum & Hall & _).
  - vm_compute. repeat constructor; set_solver.
  - intros p Hp. exists jane. split; [left|].
    vm_compute in Hp. set_unfold. by destruct Hp as [->|[->|[]]].
  - eexists. split; [right; left|]. intros p Hp.
    vm_compute in Hp. set_unfold. by destruct Hp as [->|[->|[]]].
  - exists d, d'. split_and!; [exact Hd | exact Hd' | |].
    + injection Hd as <-. reflexivity.
    + injection Hd' as <-. reflexivity.
Defined.

(** ** Creating a customer *)

Local Arguments Customers.get_customer : simpl never.

Lemma get_customer_found rt s customer_id c :
  c ∈ customers (working s) → cust_id c = customer_id →
  ∃ data, Customers.get_customer customer_id rt s = (s, inr data).
Proof.
  intros Hc Hid.
  destruct (first_where_exists (λ c, cust_id c = customer_id) _ c Hc Hid) as [c' Ec].
  unfold Customers.get_customer. session. rewrite Ec. simpl. eauto.
Qed.

Lemma get_customer_session rt s customer_id :
  (Customers.get_customer customer_id rt s).1 = s.
Proof.
  unfold Customers.get_customer. session.
  by destruct (first_where _ (customers (working s))).
Qed.

Lemma create_feature_run customer_id k v rt s :
  Customers.create_feature customer_id k v rt s =
  match v with
  | PyNone => (s, inr tt)
  | _ => match float rt v with
         | inl e => (s, inl e)
         | inr q => add_feature customer_id k q rt s
         end
  end.
Proof. by destruct v. Qed.

Lemma for_each_cons {A} (x : A) (l : list A) (body : A → M unit) rt s :
  for_each (x :: l) body rt s =
  match body x rt s with
  | (s', inr _) => for_each l body rt s'
  | (s', inl e) => (s', inl e)
  end.
Proof. reflexivity. Qed.

Lemma create_feature_loop rt customer_id d s :
  ∃ s' r,
    for_each d (λ '(feature_name, feature_value),
      Customers.create_feature customer_id feature_name feature_value) rt s = (s', r) ∧
    committed s' = committed s ∧
    match supplied_values rt d with
    | inr items =>
      r = inr tt ∧ drawn s' = (drawn s + length items)%nat ∧
      working s' = set_customer_features
        (λ l, l ++ feature_rows rt customer_id (drawn s) items) (working s)
    | inl e => r = inl e
    end.
Proof.
  revert s. induction d as [|[k v] d IH]; intros s.
  - exists s, (inr tt). simpl. by rewrite set_customer_features_nil, Nat.add_0_r.
  - rewrite for_each_cons, create_feature_run. cbn [supplied_values].
    assert (v = PyNone ∨ v ≠ PyNone) as [->|Hv] by (destruct v; eauto).
    + apply IH.
    + assert (∀ (X : Type) (a b : X),
        match v with PyNone => a | _ => b end = b) as Hm by (by destruct v).
      rewrite !Hm.
      destruct (float rt v) as [e|q]; [by exists s, (inl e)|].
      rewrite add_feature_run.
      match goal with |- context [for_each d _ rt ?s1] =>
        destruct (IH s1) as (s' & r & -> & Hc & Hitems) end.
      exists s', r. split; [done|]. split; [done|].
      destruct (supplied_values rt d) as [e|items]; [done|].
      destruct Hitems as (-> & -> & ->). simpl.
      rewrite set_customer_features_app. split_and!; [done|lia|done].
Qed.

(** [create_customer] with a feature dictionary, outcome by outcome: the
    customer row is committed by the first commit, the feature rows by the
    second. *)
Lemma create_customer_spec rt db customer d :
  let c := new_customer rt customer in
  let db1 := set_customers (λ l, l ++ [c]) db in
  match supplied_values rt d with
  | inr items =>
    ∃ data, run rt db (Customers.create_customer customer (Some d)) =
      (set_customer_features (λ l, l ++ feature_rows rt (cust_id c) 1 items) db1,
       inr data)
  | inl e => run rt db (Customers.create_customer customer (Some d)) = (db1, inl e)
  end.
Proof.
  intros c db1. subst c db1. unfold Customers.create_customer, run.
  do 4 step. rewrite bind_run, bind_run.
  match goal with |- context [for_each d _ rt ?s1] =>
    destruct (create_feature_loop rt (uuid4 rt 0) d s1) as (s' & r & Hloop & Hc & Hitems) end.
  cbn [drawn committed working cust_id] in *. rewrite Hloop.
  destruct (supplied_values rt d) as [e|items].
  - subst r. by rewrite Hc.
  - destruct Hitems as (-> & Hd & Hw). rewrite db_commit_run.
    match goal with |- context [Customers.get_customer _ rt ?s1] =>
      destruct (get_customer_found rt s1 (uuid4 rt 0) (new_customer rt customer))
        as [data Hdata] end.
    { simpl. rewrite Hw. simpl. apply elem_of_app. right. left. }
    { reflexivity. }
    rewrite Hdata. exists data. simpl. by rewrite Hw.
Qed.

Lemma create_customer_no_features rt db customer :
  ∃ data, run rt db (Customers.create_customer customer None) =
    (set_customers (λ l, l ++ [new_customer rt customer]) db, inr data).
Proof.
  unfold Customers.create_customer, run.
  do 4 step. rewrite bind_run. cbn [mret M_ret cust_id].
  match goal with |- context [Customers.get_customer _ rt ?s1] =>
    destruct (get_customer_found rt s1 (uuid4 rt 0) (new_customer rt customer))
      as [data Hdata] end.
  { simpl. apply elem_of_app. right. left. }
  { reflexivity. }
  rewrite Hdata. by exists data.
Qed.

(** ** Updating a customer's features *)

Lemma update_feature_run customer_id k v rt s :
  Customers.update_feature customer_id k v rt s =
  match v with
  | PyNone => (s, inr tt)
  | _ =>
    match float rt v with
    | inl e => (s, inl e)
    | inr q =>
      match first_where (λ f, feat_customer_id f = customer_id ∧ feat_feature_name f = k)
                        (customer_features (working s)) with
      | Some existing =>
        ({| committed := committed s;
            working := set_customer_features
              (update_where (λ r, feat_id r = feat_id existing) (with_value q (utcnow rt)))
              (working s);
            drawn := drawn s |}, inr tt)
      | None => add_feature customer_id k q rt s
      end
    end
  end.
Proof.
  destruct v; try reflexivity;
    unfold Customers.update_feature; rewrite bind_run, query_run; cbv beta iota;
    destruct (first_where _ _); rewrite bind_run; unfold py_float;
    destruct (float rt _); reflexivity.
Qed.







(** ** Feature writes: appended or overwritten *)




(** ** Commit points *)

(** C9 (as the code has it): the risk service's predict writes its
    prediction row and its feature rows under one commit, so all of them
    persist or none; [create_customer] commits the customer row first and
    the feature rows in a second commit, so the customer row persists
    whether or not the feature rows do, and the feature rows persist all
    together or not at all. *)
Theorem commit_points_of_multi_record_writes rt db :
  (∀ risk_model customer_id features,
     (∃ p, run rt db (RiskService.predict_customer_risk risk_model customer_id features) =
        (set_customer_features
           (λ l, l ++ feature_rows rt customer_id 1 (numeric_items features))
           (set_risk_predictions (λ l, l ++ [p]) db), inr p)) ∨
     (∃ e, run rt db (RiskService.predict_customer_risk risk_model customer_id features) =
        (db, inl e))) ∧
  (∀ customer d,
     let db1 := set_customers (λ l, l ++ [new_customer rt customer]) db in
     (∃ items data, supplied_values rt d = inr items ∧
        run rt db (Customers.create_customer customer (Some d)) =
          (set_customer_features (λ l, l ++ feature_rows rt (uuid4 rt 0) 1 items) db1,
           inr data)) ∨
     (∃ e, supplied_values rt d = inl e ∧
        run rt db (Customers.create_customer customer (Some d)) = (db1, inl e))).
Proof.
  split.
  - intros risk_model customer_id features. rewrite service_predict_spec.
    destruct (first_where _ (customers db)); [|by right; eexists].
    destruct (RiskModel_predict risk_model features) as [e|r]; [by right; eexists|].
    left. by eexists.
  - intros customer d db1.
    pose proof (create_customer_spec rt db customer d) as Hspec. simpl in Hspec.
    destruct (supplied_values rt d) as [e|items].
    + right. by exists e.
    + left. destruct Hspec as [data Hdata]. by exists items, data.
Qed.

(** Against C9 as stated: creating a customer with the features
    [{"age": 30, "tags": []}] fails at [float([])] after the customer row
    was committed; the customer row persists, the "age" row does not. *)
Lemma create_customer_commits_customer_alone :
  run rt0 db_jane (Customers.create_customer sam (Some sam_features)) =
    (set_customers (λ l, l ++ [new_customer rt0 sam]) db_jane,
     inl (TypeError "float() argument must be a string or a real number, not 'list'")) ∧
  customers (set_customers (λ l, l ++ [new_customer rt0 sam]) db_jane) =
    [jane; new_customer rt0 sam] ∧
  customer_features (set_customers (λ l, l ++ [new_customer rt0 sam]) db_jane) = [].
Proof. by vm_compute. Qed.

(** * Further properties of the endpoints and the service *)

(** ** Status updates that succeed *)

Lemma first_where_update_where {A} (P : A → Prop) `{!∀ x, Decision (P x)}
    (f : A → A) (l : list A) :
  (∀ x, P x → P (f x)) →
  first_where P (update_where P f l) = f <$> first_where P l.
Proof.
  intros Hf. unfold first_where, update_where.
  induction l as [|x l IH]; [done|].
  rewrite fmap_cons, !filter_cons.
  destruct (decide (P x)) as [HP|HP].
  - by rewrite decide_True by auto.
  - by rewrite decide_False by done.
Qed.

Lemma update_where_ext {A} (P Q : A → Prop) `{!∀ x, Decision (P x)}
    `{!∀ x, Decision (Q x)} (f : A → A) (l : list A) :
  (∀ x, P x ↔ Q x) → update_where P f l = update_where Q f l.
Proof.
  intros HPQ. unfold update_where. apply list_fmap_ext. intros _ x _.
  destruct (decide (P x)), (decide (Q x)); naive_solver.
Qed.

Lemma update_where_length {A} (P : A → Prop) `{!∀ x, Decision (P x)} (f : A → A) l :
  length (update_where P f l) = length l.
Proof. unfold update_where. by rewrite length_fmap. Qed.

Lemma update_where_other {A} (P : A → Prop) `{!∀ x, Decision (P x)} (f : A → A) l x :
  x ∈ l → ¬ P x → x ∈ update_where P f l.
Proof.
  intros Hx HP. unfold update_where. apply list_elem_of_fmap.
  exists x. by rewrite decide_False.
Qed.

Lemma update_status_run rt db mitigation_id status m :
  status ∈ valid_statuses →
  first_where (λ x, mit_id x = mitigation_id) (mitigations db) = Some m →
  run rt db (Mitigations.update_mitigation_status mitigation_id status) =
    (set_mitigations
       (update_where (λ r, mit_id r = mitigation_id)
          (λ _, Mitigations.with_status status (utcnow rt) m)) db,
     inr (Mitigations.with_status status (utcnow rt) m)).
Proof.
  intros Hok Hm. pose proof (first_where_Some _ _ _ Hm) as [_ Hid].
  unfold Mitigations.update_mitigation_status.
  destruct (decide (status ∉ valid_statuses)); [contradiction|].
  unfold run. step. rewrite Hm. do 3 step. cbn [mret M_ret committed].
  f_equal. unfold set_mitigations. f_equal.
  apply update_where_ext. intros x. by rewrite Hid.
Qed.

(** X1: a valid status on a stored mitigation succeeds whatever the current
    status is; the record returned carries the new status and the clock as
    updated-at and otherwise the stored fields, the other tables and the
    mitigations of other ids are untouched, and [get_mitigation] afterwards
    returns that record. *)
Theorem update_status_then_get rt rt' db mitigation_id status m :
  status ∈ valid_statuses →
  first_where (λ x, mit_id x = mitigation_id) (mitigations db) = Some m →
  ∃ db' m',
    run rt db (Mitigations.update_mitigation_status mitigation_id status) = (db', inr m') ∧
    mit_status m' = status ∧ mit_updated_at m' = Some (utcnow rt) ∧
    mit_id m' = mitigation_id ∧ mit_customer_id m' = mit_customer_id m ∧
    mit_risk_level m' = mit_risk_level m ∧
    mit_mitigation_type m' = mit_mitigation_type m ∧
    mit_description m' = mit_description m ∧ mit_assigned_to m' = mit_assigned_to m ∧
    mit_due_date m' = mit_due_date m ∧ mit_created_at m' = mit_created_at m ∧
    length (mitigations db') = length (mitigations db) ∧
    (∀ x, x ∈ mitigations db → mit_id x ≠ mitigation_id → x ∈ mitigations db') ∧
    customers db' = customers db ∧ customer_features db' = customer_features db ∧
    risk_predictions db' = risk_predictions db ∧
    run rt' db' (Mitigations.get_mitigation mitigation_id) = (db', inr m').
Proof.
  intros Hok Hm. pose proof (first_where_Some _ _ _ Hm) as [_ Hid].
  eexists _, _. split; [by apply update_status_run|].
  split_and!; try done.
  - simpl. apply update_where_length.
  - intros x Hx Hne. simpl. by apply update_where_other.
  - unfold Mitigations.get_mitigation, run. step. cbn [mitigations set_mitigations].
    rewrite (first_where_update_where (λ r, mit_id r = mitigation_id)) by done.
    by rewrite Hm.
Qed.

Lemma update_status_then_get_witness :
  ∃ db' m',
    run rt0 db_tracked (Mitigations.update_mitigation_status 31%N "Pending") =
      (db', inr m') ∧
    mit_status m' = "Pending" ∧
    run rt0 db' (Mitigations.get_mitigation 31%N) = (db', inr m').
Proof.
  destruct (update_status_then_get rt0 rt0 db_tracked 31%N "Pending" done_for_jane)
    as (db' & m' & Hrun & Hst & H); [vm_compute; set_solver | reflexivity |].
  exists db', m'. split_and!; [exact Hrun | exact Hst |].
  apply H.
Defined.

(** X2: repeating a status update changes nothing but the updated-at time:
    two updates in a row leave the database, and return the record, that
    the second update alone would. *)
Theorem update_status_twice rt rt' db mitigation_id status :
  run rt' (run rt db (Mitigations.update_mitigation_status mitigation_id status)).1
      (Mitigations.update_mitigation_status mitigation_id status) =
  run rt' db (Mitigations.update_mitigation_status mitigation_id status).
Proof.
  destruct (decide (status ∈ valid_statuses)) as [Hok|Hbad].
  - destruct (first_where (λ x, mit_id x = mitigation_id) (mitigations db))
      as [m|] eqn:Hm.
    + pose proof (first_where_Some _ _ _ Hm) as [_ Hid].
      rewrite (update_status_run rt db mitigation_id status m) by done.
      cbn [fst].
      rewrite (update_status_run rt' _ mitigation_id status
                 (Mitigations.with_status status (utcnow rt) m)); [|done|].
      * rewrite (update_status_run rt' db mitigation_id status m) by done.
        f_equal. unfold set_mitigations. cbn. f_equal.
        unfold update_where. rewrite <- list_fmap_compose.
        apply list_fmap_ext. intros _ x _. simpl.
        destruct (decide (mit_id x = mitigation_id)); [|by rewrite decide_False].
        by rewrite decide_True.
      * cbn [mitigations set_mitigations].
        rewrite (first_where_update_where (λ r, mit_id r = mitigation_id)) by done.
        by rewrite Hm.
    + assert (run rt db (Mitigations.update_mitigation_status mitigation_id status) =
              (db, inl (HTTPException 404 "Mitigation not found"))) as ->; [|done].
      apply update_status_missing_valid; [|done].
      by apply (first_where_None (λ x, mit_id x = mitigation_id)).
  - unfold Mitigations.update_mitigation_status.
    destruct (decide (status ∉ valid_statuses)); [done|contradiction].
Qed.

(** ** Creating and listing mitigations *)

Lemma first_where_app_fresh {A} (P : A → Prop) `{!∀ x, Decision (P x)} (l : list A) x :
  (∀ y, y ∈ l → ¬ P y) → P x → first_where P (l ++ [x]) = Some x.
Proof.
  intros Hl Hx. unfold first_where. rewrite filter_app.
  assert (filter P l = []) as ->.
  { apply head_None. by apply (first_where_None P). }
  by rewrite filter_cons, decide_True.
Qed.

Lemma post_mitigation_high rt db body c :
  mc_risk_level body = "High" → mc_mitigation_type body ∈ allowed_types →
  c ∈ customers db → cust_id c = mc_customer_id body →
  current_risk_level (mc_customer_id body) db = Some "High" →
  ∃ m,
    run rt db (Mitigations.post_mitigation body) =
      (set_mitigations (λ l, l ++ [m]) db, inr m) ∧
    mit_status m = "Pending" ∧ mit_id m = uuid4 rt 0 ∧
    mit_customer_id m = mc_customer_id body ∧ mit_risk_level m = "High" ∧
    mit_mitigation_type m = mc_mitigation_type body ∧
    mit_description m = mc_description body ∧
    mit_assigned_to m = mc_assigned_to body ∧ mit_due_date m = mc_due_date body ∧
    mit_created_at m = utcnow rt ∧ mit_updated_at m = None.
Proof.
  intros Hl Ht Hc Hid Hlvl. rewrite validate_passes by done.
  destruct (first_where_exists (λ c, cust_id c = mc_customer_id body) _ c Hc Hid)
    as [c' Ec].
  unfold current_risk_level in Hlvl.
  destruct (latest_prediction_of (mc_customer_id body) db) as [p|] eqn:Ep; [|done].
  injection Hlvl as Hp.
  eexists. split.
  - unfold Mitigations.create_mitigation. session. rewrite Ec. simpl. rewrite Ep. simpl.
    rewrite bool_decide_false by (by intros ?). simpl. reflexivity.
  - simpl. by split_and!.
Qed.

(** X3: for an existing customer whose latest prediction is "High", a
    request with label "High" and an allowed type succeeds: exactly one
    mitigation is appended, with status "Pending", the request's fields, the
    clock as creation time and no updated-at; when the drawn id is not in
    use, [get_mitigation] on it returns the new record. *)
Theorem create_mitigation_succeeds rt rt' db body c :
  mc_risk_level body = "High" → mc_mitigation_type body ∈ allowed_types →
  c ∈ customers db → cust_id c = mc_customer_id body →
  current_risk_level (mc_customer_id body) db = Some "High" →
  ∃ m,
    run rt db (Mitigations.post_mitigation body) =
      (set_mitigations (λ l, l ++ [m]) db, inr m) ∧
    mit_status m = "Pending" ∧ mit_id m = uuid4 rt 0 ∧
    mit_customer_id m = mc_customer_id body ∧ mit_risk_level m = "High" ∧
    mit_mitigation_type m = mc_mitigation_type body ∧
    mit_description m = mc_description body ∧
    mit_assigned_to m = mc_assigned_to body ∧ mit_due_date m = mc_due_date body ∧
    mit_created_at m = utcnow rt ∧ mit_updated_at m = None ∧
    ((∀ x, x ∈ mitigations db → mit_id x ≠ uuid4 rt 0) →
     run rt' (set_mitigations (λ l, l ++ [m]) db) (Mitigations.get_mitigation (mit_id m)) =
       (set_mitigations (λ l, l ++ [m]) db, inr m)).
Proof.
  intros Hl Ht Hc Hid Hlvl.
  destruct (post_mitigation_high rt db body c Hl Ht Hc Hid Hlvl)
    as (m & Hrun & Hst & Hmid & Hrest).
  exists m. split_and!; try tauto.
  intros Hfresh. unfold Mitigations.get_mitigation, run. step.
  cbn [mitigations set_mitigations working]. rewrite Hmid.
  by rewrite (first_where_app_fresh (λ x, mit_id x = uuid4 rt 0)).
Qed.

Lemma create_mitigation_succeeds_witness :
  ∃ m, run rt0 db_jane (Mitigations.post_mitigation body_high) =
         (set_mitigations (λ l, l ++ [m]) db_jane, inr m) ∧
       mit_status m = "Pending" ∧
       run rt0 (set_mitigations (λ l, l ++ [m]) db_jane)
           (Mitigations.get_mitigation (mit_id m)) =
         (set_mitigations (λ l, l ++ [m]) db_jane, inr m).
Proof.
  destruct (create_mitigation_succeeds rt0 rt0 db_jane body_high jane)
    as (m & Hrun & Hst & _ & _ & _ & _ & _ & _ & _ & _ & _ & Hget).
  - reflexivity.
  - vm_compute. left.
  - left.
  - reflexivity.
  - by vm_compute.
  - exists m. split_and!; [exact Hrun | exact Hst |].
    apply Hget. intros x Hx. by apply not_elem_of_nil in Hx.
Defined.

Lemma filter_all {A} (P : A → Prop) `{!∀ x, Decision (P x)} (l : list A) :
  (∀ x, P x) → filter P l = l.
Proof.
  intros HP. induction l as [|x l IH]; [done|].
  by rewrite filter_cons, decide_True, IH.
Qed.

Lemma mitigation_filters customer_id status (l : list MitigationRecord) :
  match status with
  | Some st =>
    if decide (st = "") then
      match customer_id with
      | Some cid => filter (λ m, mit_customer_id m = cid) l
      | None => l
      end
    else
      filter (λ m, mit_status m = st)
        match customer_id with
        | Some cid => filter (λ m, mit_customer_id m = cid) l
        | None => l
        end
  | None =>
    match customer_id with
    | Some cid => filter (λ m, mit_customer_id m = cid) l
    | None => l
    end
  end = filter (mitigation_matches customer_id status) l.
Proof.
  unfold mitigation_matches.
  destruct customer_id as [cid|], status as [st|].
  - destruct (decide (st = "")) as [->|Hst].
    + apply list_filter_iff. naive_solver.
    + rewrite list_filter_filter. apply list_filter_iff. naive_solver.
  - apply list_filter_iff. naive_solver.
  - destruct (decide (st = "")) as [->|Hst].
    + symmetry. apply filter_all. naive_solver.
    + apply list_filter_iff. naive_solver.
  - symmetry. apply filter_all. naive_solver.
Qed.

(** The rows [list_mitigations] pages through. *)
Lemma list_mitigations_run rt db customer_id status skip limit :
  run rt db (Mitigations.list_mitigations customer_id status skip limit) =
  (db, inr (take limit (drop skip
     (order_by_desc mit_created_at
        (filter (mitigation_matches customer_id status) (mitigations db)))))).
Proof. rewrite <- mitigation_filters. reflexivity. Qed.

Lemma order_by_desc_sorted {A} (key : A → Z) (l : list A) :
  StronglySorted (key_desc key) (order_by_desc key l).
Proof. apply (StronglySorted_merge_sort (key_desc key)). Qed.

Lemma StronglySorted_take_drop {A} (R : relation A) (l : list A) skip limit :
  StronglySorted R l → StronglySorted R (take limit (drop skip l)).
Proof.
  intros Hs.
  rewrite <- (take_drop skip l) in Hs. apply StronglySorted_app_1_r in Hs.
  rewrite <- (take_drop limit (drop skip l)) in Hs.
  by apply StronglySorted_app_1_l in Hs.
Qed.

(** X4: [list_mitigations] never fails and never writes; it returns at most
    [limit] stored mitigations, each matching the customer filter and the
    status filter (an empty status string filters nothing), newest creation
    first; a page of [a] rows followed by the next page of [b] rows is the
    page of [a + b] rows, and skipping past the end gives the empty list. *)
Theorem list_mitigations_pages rt db customer_id status skip limit :
  ∃ page,
    run rt db (Mitigations.list_mitigations customer_id status skip limit) =
      (db, inr page) ∧
    (length page ≤ limit)%nat ∧
    (∀ m, m ∈ page →
       m ∈ mitigations db ∧
       (∀ cid, customer_id = Some cid → mit_customer_id m = cid) ∧
       (∀ st, status = Some st → st ≠ "" → mit_status m = st)) ∧
    StronglySorted (λ a b, mit_created_at b ≤ mit_created_at a) page ∧
    (∀ a b page_a page_b,
       run rt db (Mitigations.list_mitigations customer_id status skip a) =
         (db, inr page_a) →
       run rt db (Mitigations.list_mitigations customer_id status (skip + a) b) =
         (db, inr page_b) →
       run rt db (Mitigations.list_mitigations customer_id status skip (a + b)) =
         (db, inr (page_a ++ page_b))) ∧
    ((length (mitigations db) ≤ skip)%nat → page = []).
Proof.
  eexists. split; [apply list_mitigations_run|].
  set (rows := filter _ (mitigations db)).
  split_and!.
  - rewrite length_take. lia.
  - intros m Hm. apply subseteq_take, subseteq_drop in Hm.
    unfold order_by_desc in Hm. rewrite merge_sort_Permutation in Hm.
    apply list_elem_of_filter in Hm as [[Hc Hs] Hm]. split_and!; [done|..].
    + by intros cid ->.
    + intros st -> Hne. by destruct Hs.
  - apply StronglySorted_take_drop, order_by_desc_sorted.
  - intros a b page_a page_b. rewrite !list_mitigations_run.
    intros [= <-] [= <-]. do 2 f_equal. fold rows.
    rewrite <- (drop_drop _ a skip). symmetry. apply take_take_drop.
  - intros Hlen. rewrite drop_ge; [by destruct limit|].
    unfold order_by_desc.
    rewrite (Permutation_length (merge_sort_Permutation _ rows)).
    etrans; [apply length_filter|done].
Qed.

(** ** The oracle wrapper *)

Lemma preprocess_features_keys self customer_data :
  preprocess_features self customer_data =
  (λ key, default (PyInt 0) (dict_get key customer_data)) <$> model_keys self.
Proof. reflexivity. Qed.

(** X5: the oracle's answer depends only on the values under the model's
    feature names: two feature dictionaries that agree on those names get the
    same prediction, so extra keys are ignored; the row handed to the
    classifier has one entry per name, in order, with [0] for a missing
    name, and an empty unpickled name list falls back to the seven default
    names. *)
Theorem prediction_reads_model_features_only self d1 d2 :
  (∀ key, key ∈ model_keys self → dict_get key d1 = dict_get key d2) →
  RiskModel_predict self d1 = RiskModel_predict self d2 ∧
  length (preprocess_features self d1) = length (model_keys self) ∧
  (∀ i key, model_keys self !! i = Some key →
     preprocess_features self d1 !! i = Some (default (PyInt 0) (dict_get key d1))) ∧
  (rm_features self = None ∨ rm_features self = Some [] → model_keys self = feature_keys).
Proof.
  intros Hagree.
  assert (preprocess_features self d1 = preprocess_features self d2) as Hrow.
  { rewrite !preprocess_features_keys. apply list_fmap_ext.
    intros i key Hkey. f_equal. apply Hagree. by eapply list_elem_of_lookup_2. }
  split_and!.
  - unfold RiskModel_predict. by rewrite Hrow.
  - by rewrite preprocess_features_keys, length_fmap.
  - intros i key Hkey. by rewrite preprocess_features_keys, list_lookup_fmap, Hkey.
  - unfold model_keys. by intros [-> | ->].
Qed.

Lemma prediction_reads_model_features_only_witness :
  RiskModel_predict scoring_model jane_features =
  RiskModel_predict scoring_model
    [("income", PyFloat (inject_Z 25000)); ("nickname", PyStr "jd");
     ("credit_score", PyInt 550)].
Proof.
  apply prediction_reads_model_features_only.
  intros key Hkey. vm_compute in Hkey. set_unfold.
  by destruct Hkey as [->|[->|[]]].
Defined.

Lemma py_max_greatest (l : list Q) m :
  py_max l = inr m → m ∈ l ∧ ∀ p, p ∈ l → (p <= m)%Q.
Proof.
  destruct l as [|x l]; [done|]. simpl. intros [= <-].
  assert (∀ acc, let r := foldl (λ m y, if Qlt_le_dec m y then y else m) acc l in
            (r = acc ∨ r ∈ l) ∧ (acc <= r)%Q ∧ ∀ p, p ∈ l → (p <= r)%Q) as Hfold.
  { induction l as [|y l IH]; intros acc; simpl.
    - split_and!; [by left | apply Qle_refl | by intros p ?%not_elem_of_nil].
    - destruct (Qlt_le_dec acc y) as [Hlt|Hle].
      + destruct (IH y) as (Hin & Hge & Hall). split_and!.
        * right. destruct Hin as [->|Hin]; [left | by right].
        * eapply Qle_trans; [by apply Qlt_le_weak|done].
        * intros p [->|Hp]%elem_of_cons; auto.
      + destruct (IH acc) as (Hin & Hge & Hall). split_and!.
        * destruct Hin as [->|Hin]; [by left | by right; right].
        * done.
        * intros p [->|Hp]%elem_of_cons; [by eapply Qle_trans|auto]. }
  destruct (Hfold x) as (Hin & Hge & Hall). split.
  - destruct Hin as [->|Hin]; [left | by right].
  - intros p [->|Hp]%elem_of_cons; auto.
Qed.

(** X6: a prediction's confidence is absent when the classifier has no
    [predict_proba], and otherwise is one of the class probabilities of the
    row and no smaller than any of them; its level is the name of the
    classifier's label. *)
Theorem confidence_is_greatest_probability self customer_data r :
  RiskModel_predict self customer_data = inr r →
  risk_level r = risk_levels_get (prediction r) "Unknown" ∧
  match clf_predict_proba (rm_model self) with
  | None => confidence_score r = None
  | Some predict_proba =>
    ∃ probabilities m,
      predict_proba (preprocess_features self customer_data) = inr probabilities ∧
      confidence_score r = Some m ∧ m ∈ probabilities ∧
      ∀ p, p ∈ probabilities → (p <= m)%Q
  end.
Proof.
  intros Hr. split; [by apply RiskModel_predict_level in Hr as [_ ?]|].
  revert Hr. unfold RiskModel_predict, failed_prediction.
  destruct (clf_predict _ _) as [msg|k]; [done|].
  destruct (clf_predict_proba _) as [proba|]; [|by intros [= <-]].
  destruct (proba _) as [msg|probs]; [done|].
  destruct (py_max probs) as [msg|m] eqn:Hmax; [done|]. intros [= <-].
  apply py_max_greatest in Hmax as [Hin Hall]. by exists probs, m.
Qed.

Lemma confidence_is_greatest_probability_witness :
  ∃ r, RiskModel_predict scoring_model jane_features = inr r ∧
       risk_level r = "High" ∧ confidence_score r = Some (7 # 10)%Q.
Proof.
  eexists. split; [reflexivity|].
  destruct (confidence_is_greatest_probability scoring_model jane_features _ eq_refl)
    as [Hlevel _].
  split; [exact Hlevel | reflexivity].
Defined.




(** ** The distribution against its schema *)

(** X8: the statistics endpoint's dictionary always passes
    [RiskDistribution.validate_total]; the risk service's dictionary passes
    it exactly when the number of customer rows equals the sum of the three
    buckets. *)
Theorem distribution_against_schema rt db :
  ∃ d d',
    run rt db Predictions.get_risk_distribution = (db, inr d) ∧
    run rt db RiskService.get_risk_distribution = (db, inr d') ∧
    validate_total d = inr (total_customers d) ∧
    (validate_total d' = inr (total_customers d') ↔
     length (customers db) =
       (low_risk_count d' + medium_risk_count d' + high_risk_count d')%nat) ∧
    (length (customers db) ≠
       (low_risk_count d' + medium_risk_count d' + high_risk_count d')%nat →
     ∃ msg, validate_total d' = inl (ValueError msg)).
Proof.
  eexists _, _.
  split; [apply endpoint_distribution_spec|].
  split; [apply service_distribution_spec|].
  unfold validate_total. simpl. split_and!.
  - by rewrite decide_False by (by intros ?).
  - case_decide; naive_solver.
  - intros Hne. rewrite decide_True by done. eauto.
Qed.

(** ** The service's read-only queries *)

Lemma ascii_compare_lt_trans a b c :
  Ascii.compare a b = Lt → Ascii.compare b c = Lt → Ascii.compare a c = Lt.
Proof.
  unfold Ascii.compare. rewrite !N.compare_lt_iff. lia.
Qed.

Lemma string_compare_refl s : String.compare s s = Eq.
Proof.
  pose proof (String.compare_antisym s s) as H.
  by destruct (String.compare s s).
Qed.

Lemma string_compare_lt_trans s1 s2 s3 :
  String.compare s1 s2 = Lt → String.compare s2 s3 = Lt → String.compare s1 s3 = Lt.
Proof.
  revert s2 s3. induction s1 as [|a s1 IH]; intros [|b s2] [|c s3]; simpl; try done.
  destruct (Ascii.compare a b) eqn:Hab; try done;
    destruct (Ascii.compare b c) eqn:Hbc; try done.
  - apply Ascii.compare_eq_iff in Hab as ->. rewrite Hbc. apply IH.
  - apply Ascii.compare_eq_iff in Hab as ->. by rewrite Hbc.
  - apply Ascii.compare_eq_iff in Hbc as <-. by rewrite Hab.
  - by rewrite (ascii_compare_lt_trans a b c).
Qed.

Lemma string_ltb_trans s1 s2 s3 :
  String.ltb s1 s2 = true → String.ltb s2 s3 = true → String.ltb s1 s3 = true.
Proof.
  unfold String.ltb. intros H12 H23.
  rewrite (string_compare_lt_trans s1 s2 s3); [done|..].
  - by destruct (String.compare s1 s2).
  - by destruct (String.compare s2 s3).
Qed.

Lemma string_ltb_irrefl s : String.ltb s s = false.
Proof. unfold String.ltb. by rewrite string_compare_refl. Qed.

Lemma string_ltb_trichotomy s1 s2 :
  String.ltb s1 s2 = true ∨ s1 = s2 ∨ String.ltb s2 s1 = true.
Proof.
  unfold String.ltb. rewrite (String.compare_antisym s2 s1).
  destruct (String.compare s1 s2) eqn:H; simpl; auto.
  right. left. by apply String.compare_eq_iff.
Qed.

Global Instance by_name_latest_first_trans : Transitive RiskService.by_name_latest_first.
Proof.
  unfold RiskService.by_name_latest_first.
  intros x y z [Hxy|[Hxy Hxy']] [Hyz|[Hyz Hyz']].
  - left. by eapply string_ltb_trans.
  - left. by rewrite <- Hyz.
  - left. by rewrite Hxy.
  - right. split; [congruence | lia].
Qed.

Global Instance by_name_latest_first_total : Total RiskService.by_name_latest_first.
Proof.
  unfold RiskService.by_name_latest_first. intros x y.
  destruct (string_ltb_trichotomy (feat_feature_name x) (feat_feature_name y))
    as [?|[Heq|?]]; auto.
  destruct (decide (feat_recorded_at y ≤ feat_recorded_at x)); [auto|].
  right. right. split; [done | lia].
Qed.

Global Instance by_name_latest_first_refl : Reflexive RiskService.by_name_latest_first.
Proof. intros x. right. split; [done | lia]. Qed.

Global Instance due_date_asc_trans : Transitive RiskService.due_date_asc.
Proof.
  unfold RiskService.due_date_asc. intros x y z.
  destruct (mit_due_date x), (mit_due_date y), (mit_due_date z); try done. lia.
Qed.

Global Instance due_date_asc_total : Total RiskService.due_date_asc.
Proof.
  unfold RiskService.due_date_asc. intros x y.
  destruct (mit_due_date x), (mit_due_date y); auto. lia.
Qed.

(** X9: [get_customer_risk_history] never fails and never writes; it returns
    the customer's predictions newest first, as many as there are up to
    [limit]; its first entry is the latest prediction the snapshot and the
    mitigation gate read, and no prediction it leaves out is newer than one
    it returns. *)
Theorem risk_history_newest_first rt db customer_id limit :
  ∃ history,
    run rt db (RiskService.get_customer_risk_history customer_id limit) =
      (db, inr history) ∧
    length history =
      min limit (length (filter (λ p, pred_customer_id p = customer_id)
                                (risk_predictions db))) ∧
    (∀ p, p ∈ history → p ∈ risk_predictions db ∧ pred_customer_id p = customer_id) ∧
    StronglySorted
      (λ a b, pred_prediction_timestamp b ≤ pred_prediction_timestamp a) history ∧
    ((0 < limit)%nat → head history = latest_prediction_of customer_id db) ∧
    (∀ p q, p ∈ history → q ∈ risk_predictions db → pred_customer_id q = customer_id →
            q ∉ history → pred_prediction_timestamp q ≤ pred_prediction_timestamp p).
Proof.
  exists (take limit (order_by_desc pred_prediction_timestamp
            (filter (λ p, pred_customer_id p = customer_id) (risk_predictions db)))).
  split; [reflexivity|].
  set (rows := filter (λ p, pred_customer_id p = customer_id) (risk_predictions db)).
  set (sorted := order_by_desc pred_prediction_timestamp rows).
  assert (sorted ≡ₚ rows) as Hperm by apply merge_sort_Permutation.
  pose proof (order_by_desc_sorted pred_prediction_timestamp rows) as Hsorted.
  fold sorted in Hsorted.
  split_and!.
  - by rewrite length_take, Hperm.
  - intros p Hp. apply subseteq_take in Hp. rewrite Hperm in Hp.
    apply list_elem_of_filter in Hp. tauto.
  - rewrite <- (take_drop limit sorted) in Hsorted.
    by apply StronglySorted_app_1_l in Hsorted.
  - intros Hpos. unfold latest_prediction_of. fold rows. fold sorted.
    destruct limit; [lia|]. by destruct sorted.
  - intros p q Hp Hq Hqc Hout.
    assert (q ∈ sorted) as Hqs by (rewrite Hperm; by apply list_elem_of_filter).
    rewrite <- (take_drop limit sorted) in Hqs, Hsorted.
    apply elem_of_app in Hqs as [Hqs|Hqs]; [contradiction|].
    by apply (StronglySorted_app_1_elem_of _ _ _ _ _ Hsorted Hp Hqs).
Qed.



(** ** Feature dictionaries *)

Section feature_dict.
Context {A : Type} (key : A → string) (val : A → Q).

Lemma collect_lookup_other m (l : list A) k :
  k ∉ key <$> l → collect key val m l !! k = m !! k.
Proof.
  revert m. induction l as [|x l IH]; intros m Hk; [done|].
  rewrite fmap_cons, not_elem_of_cons in Hk. destruct Hk as [Hne Hk].
  unfold collect in *. simpl. rewrite IH by done. by rewrite lookup_insert_ne.
Qed.

Lemma collect_lookup_Some m (l : list A) k v :
  collect key val m l !! k = Some v →
  (∃ r, r ∈ l ∧ key r = k ∧ val r = v) ∨ m !! k = Some v.
Proof.
  revert m. induction l as [|x l IH]; intros m Hk; [by right|].
  unfold collect in *. simpl in Hk. apply IH in Hk as [(r & Hr & ? & ?)|Hk].
  - left. exists r. split_and!; [by right|done..].
  - destruct (decide (key x = k)) as [<-|Hne].
    + rewrite lookup_insert_eq in Hk. injection Hk as <-.
      left. exists x. split_and!; [left|done..].
    + rewrite lookup_insert_ne in Hk by done. by right.
Qed.

Lemma collect_lookup_is_Some m (l : list A) r :
  r ∈ l → is_Some (collect key val m l !! key r).
Proof.
  revert m r. induction l as [|x l IH]; intros m r Hr; [by apply not_elem_of_nil in Hr|].
  change (collect key val m (x :: l)) with (collect key val (<[key x:=val x]> m) l).
  apply elem_of_cons in Hr as [->|Hr]; [|by apply IH].
  destruct (decide (key x ∈ key <$> l)) as [Hin|Hout].
  - apply list_elem_of_fmap in Hin as (y & -> & Hy). by apply IH.
  - rewrite collect_lookup_other by done. rewrite lookup_insert_eq. eauto.
Qed.

Lemma collect_lookup_NoDup m (l : list A) r :
  NoDup (key <$> l) → r ∈ l → collect key val m l !! key r = Some (val r).
Proof.
  revert m r. induction l as [|x l IH]; intros m r Hnd Hr;
    [by apply not_elem_of_nil in Hr|].
  rewrite fmap_cons in Hnd. apply NoDup_cons in Hnd as [Hx Hnd].
  change (collect key val m (x :: l)) with (collect key val (<[key x:=val x]> m) l).
  apply elem_of_cons in Hr as [->|Hr]; [|by apply IH].
  rewrite collect_lookup_other by done. by rewrite lookup_insert_eq.
Qed.
End feature_dict.

(** X11: [get_customer_features] never fails and never writes; its
    dictionary has an entry for exactly the feature names the customer has a
    record of, and the value under a name is that of a record of the
    customer and name whose recorded-at time no other such record exceeds. *)
Theorem customer_features_are_latest rt db customer_id :
  ∃ features,
    run rt db (RiskService.get_customer_features customer_id) = (db, inr features) ∧
    (∀ name v, features !! name = Some v →
       ∃ f, f ∈ customer_features db ∧ feat_customer_id f = customer_id ∧
            feat_feature_name f = name ∧ feat_feature_value f = v ∧
            ∀ g, g ∈ customer_features db → feat_customer_id g = customer_id →
                 feat_feature_name g = name →
                 feat_recorded_at g ≤ feat_recorded_at f) ∧
    (∀ name, features !! name = None ↔
       ∀ f, f ∈ customer_features db → feat_customer_id f = customer_id →
            feat_feature_name f ≠ name).
Proof.
  set (rows := filter (λ f, feat_customer_id f = customer_id) (customer_features db)).
  set (sorted := merge_sort RiskService.by_name_latest_first rows).
  set (subquery := distinct_on feat_feature_name sorted).
  exists (collect feat_feature_name feat_feature_value ∅ subquery).
  split; [reflexivity|].
  assert (sorted ≡ₚ rows) as Hperm by apply merge_sort_Permutation.
  assert (∀ f, f ∈ rows ↔ f ∈ customer_features db ∧ feat_customer_id f = customer_id)
    as Hrows by (intros f; unfold rows; rewrite list_elem_of_filter; tauto).
  split.
  - intros name v Hv.
    apply collect_lookup_Some in Hv as [(f & Hf & Hname & Hval)|Hv];
      [|by rewrite lookup_empty in Hv].
    pose proof (distinct_on_elem_of _ _ _ Hf) as Hfs. rewrite Hperm in Hfs.
    apply Hrows in Hfs as [Hfin Hfc].
    exists f. split_and!; [done..|]. intros g Hg Hgc Hgn.
    assert (RiskService.by_name_latest_first f g) as [Hlt|[_ Hle]]; [|exfalso|done].
    + eapply (distinct_on_first feat_feature_name); [apply _| |exact Hf| |congruence].
      * apply (StronglySorted_merge_sort RiskService.by_name_latest_first).
      * rewrite Hperm. by apply Hrows.
    + rewrite Hname, Hgn, string_ltb_irrefl in Hlt. done.
  - intros name. split.
    + intros Hnone f Hf Hfc Hname.
      assert (name ∈ feat_feature_name <$> subquery) as (r & Hr & Hrin)%list_elem_of_fmap.
      { apply distinct_on_keys. rewrite Hperm. apply list_elem_of_fmap.
        exists f. split; [done|]. by apply Hrows. }
      destruct (collect_lookup_is_Some feat_feature_name feat_feature_value ∅
                  subquery r Hrin) as [v Hv].
      rewrite <- Hr in Hv. congruence.
    + intros Hall.
      destruct (collect feat_feature_name feat_feature_value ∅ subquery !! name)
        as [v|] eqn:Hv; [|done].
      apply collect_lookup_Some in Hv as [(f & Hf & Hname & _)|Hv];
        [|by rewrite lookup_empty in Hv].
      apply distinct_on_elem_of in Hf. rewrite Hperm in Hf.
      apply Hrows in Hf as [Hfin Hfc]. by destruct (Hall f Hfin Hfc).
Qed.

(** X12: the snapshot of an existing customer carries the customer's id and
    a feature dictionary with an entry for exactly the feature names the
    customer has a record of, each value being that of one of the customer's
    records of that name. *)
Theorem snapshot_features rt db customer_id :
  (∃ c, c ∈ customers db ∧ cust_id c = customer_id) →
  ∃ data features,
    run rt db (Customers.get_customer customer_id) = (db, inr data) ∧
    data !! "id" = Some (JUuid customer_id) ∧
    data !! "features" = Some (JFeatures features) ∧
    (∀ name, is_Some (features !! name) ↔
       ∃ f, f ∈ customer_features db ∧ feat_customer_id f = customer_id ∧
            feat_feature_name f = name) ∧
    (∀ name v, features !! name = Some v →
       ∃ f, f ∈ customer_features db ∧ feat_customer_id f = customer_id ∧
            feat_feature_name f = name ∧ feat_feature_value f = v).
Proof.
  intros (c & Hc & Hid).
  destruct (first_where_exists (λ c, cust_id c = customer_id) _ c Hc Hid) as [c' Ec].
  pose proof (first_where_Some _ _ _ Ec) as [_ Hid'].
  set (rows := filter (λ f, feat_customer_id f = customer_id) (customer_features db)).
  assert (∀ f, f ∈ rows ↔ f ∈ customer_features db ∧ feat_customer_id f = customer_id)
    as Hrows by (intros f; unfold rows; rewrite list_elem_of_filter; tauto).
  eexists _, (collect feat_feature_name feat_feature_value ∅ rows).
  split; [|split_and!].
  - unfold Customers.get_customer, run. step. rewrite Ec. do 2 step.
    cbn [mret M_ret]. rewrite Hid'. reflexivity.
  - by destruct (latest_prediction_of customer_id db).
  - by destruct (latest_prediction_of customer_id db).
  - intros name. split.
    + intros [v Hv].
      apply collect_lookup_Some in Hv as [(f & Hf & Hname & _)|Hv];
        [|by rewrite lookup_empty in Hv].
      apply Hrows in Hf as [??]. eauto.
    + intros (f & Hf & Hfc & <-). apply collect_lookup_is_Some. by apply Hrows.
  - intros name v Hv.
    apply collect_lookup_Some in Hv as [(f & Hf & Hname & Hval)|Hv];
      [|by rewrite lookup_empty in Hv].
    apply Hrows in Hf as [??]. eauto 10.
Qed.

Lemma snapshot_features_witness :
  ∃ data features,
    run rt0 db_flagged (Customers.get_customer 1%N) = (db_flagged, inr data) ∧
    data !! "features" = Some (JFeatures features) ∧
    is_Some (features !! "credit_score").
Proof.
  destruct (snapshot_features rt0 db_flagged 1%N)
    as (data & features & Hrun & _ & Hfeat & Hdom & _).
  { exists jane. split; [left | reflexivity]. }
  exists data, features. split_and!; [exact Hrun | exact Hfeat |].
  apply Hdom. eexists. split_and!; [left | reflexivity | reflexivity].
Defined.

(** ** High-risk customers *)

Lemma high_risk_join_elem_of db c p :
  (c, p) ∈ RiskService.high_risk_join db ↔
  c ∈ customers db ∧ p ∈ risk_predictions db ∧
  ∃ lp, lp ∈ latest_rows db ∧ pred_customer_id lp = cust_id c ∧ pred_id p = pred_id lp.
Proof.
  unfold RiskService.high_risk_join. rewrite list_elem_of_bind. split.
  - intros (c' & Hin & Hc').
    apply list_elem_of_bind in Hin as ([lc li] & Hin & Hlp).
    apply list_elem_of_fmap in Hlp as (lp & [= -> ->] & Hlp). simpl in Hin.
    case_decide as Hc; [|by apply not_elem_of_nil in Hin].
    apply list_elem_of_bind in Hin as (p' & Hin & Hp').
    case_decide as Hp; [|by apply not_elem_of_nil in Hin].
    apply list_elem_of_singleton in Hin as [= <- <-]. eauto 10.
  - intros (Hc & Hp & lp & Hlp & Hlc & Hli).
    exists c. split; [|done]. apply list_elem_of_bind.
    exists (pred_customer_id lp, pred_id lp). split; [|by apply list_elem_of_fmap_2'
      with lp]. simpl.
    rewrite decide_True by done. apply list_elem_of_bind.
    exists p. split; [|done]. rewrite decide_True by done. left.
Qed.

Lemma NoDup_fmap_eq {A B} (f : A → B) (l : list A) x y :
  NoDup (f <$> l) → x ∈ l → y ∈ l → f x = f y → x = y.
Proof.
  induction l as [|a l IH]; [by intros _ ?%not_elem_of_nil|].
  rewrite fmap_cons. intros [Ha Hnd]%NoDup_cons [->|Hx]%elem_of_cons [->|Hy]%elem_of_cons Hf.
  - done.
  - destruct Ha. rewrite Hf. by apply list_elem_of_fmap_2.
  - destruct Ha. rewrite <- Hf. by apply list_elem_of_fmap_2.
  - by apply IH.
Qed.

(** X13: with prediction ids unique, [get_high_risk_customers] never fails
    and never writes; each pair it returns is a stored customer with a
    prediction of that customer that is "High" and that no other prediction
    of the customer is newer than; the pairs come newest prediction first,
    at most [limit] of them; and with a limit that covers every row, each
    customer whose latest row is "High" is returned with it. *)
Theorem high_risk_customers_have_high_latest rt db skip limit :
  NoDup (pred_id <$> risk_predictions db) →
  ∃ page,
    run rt db (RiskService.get_high_risk_customers skip limit) = (db, inr page) ∧
    (length page ≤ limit)%nat ∧
    (∀ c p, (c, p) ∈ page →
       c ∈ customers db ∧ p ∈ risk_predictions db ∧
       pred_customer_id p = cust_id c ∧ pred_risk_level p = "High" ∧
       ∀ q, q ∈ risk_predictions db → pred_customer_id q = cust_id c →
            pred_prediction_timestamp q ≤ pred_prediction_timestamp p) ∧
    StronglySorted
      (λ a b, pred_prediction_timestamp b.2 ≤ pred_prediction_timestamp a.2) page ∧
    (∀ c p all,
       run rt db (RiskService.get_high_risk_customers 0
                    (length (RiskService.high_risk_join db))) = (db, inr all) →
       c ∈ customers db → p ∈ latest_rows db → pred_customer_id p = cust_id c →
       pred_risk_level p = "High" → (c, p) ∈ all).
Proof.
  intros Hpk.
  set (rows := filter (λ cp : Customer * RiskPredictionRecord,
                         pred_risk_level cp.2 = "High") (RiskService.high_risk_join db)).
  set (sorted := order_by_desc
                   (λ cp : Customer * RiskPredictionRecord,
                      pred_prediction_timestamp cp.2) rows).
  exists (take limit (drop skip sorted)).
  assert (sorted ≡ₚ rows) as Hperm by apply merge_sort_Permutation.
  split; [reflexivity|]. split_and!.
  - rewrite length_take. lia.
  - intros c p Hcp. apply subseteq_take, subseteq_drop in Hcp.
    rewrite Hperm in Hcp. apply list_elem_of_filter in Hcp as [Hhigh Hcp].
    apply high_risk_join_elem_of in Hcp as (Hc & Hp & lp & Hlp & Hlc & Hli).
    pose proof (latest_rows_elem_of db lp Hlp) as [Hlpin Hmax].
    assert (p = lp) as -> by (by eapply (NoDup_fmap_eq pred_id)).
    split_and!; try done. intros q Hq Hqc. apply Hmax; [done | congruence].
  - apply StronglySorted_take_drop. apply order_by_desc_sorted.
  - intros c p all [= <-] Hc Hp Hpc Hhigh. rewrite drop_0, take_ge.
    + fold rows. fold sorted. rewrite Hperm. apply list_elem_of_filter. split; [done|].
      apply high_risk_join_elem_of. split_and!; [done| |by exists p].
      by apply latest_rows_elem_of in Hp as [? _].
    + fold rows. fold sorted. rewrite Hperm. apply length_filter.
Qed.

Lemma high_risk_customers_have_high_latest_witness :
  ∃ page,
    run rt0 db_two (RiskService.get_high_risk_customers 0 10) = (db_two, inr page) ∧
    (∀ c p, (c, p) ∈ page → pred_risk_level p = "High") ∧
    page = [(jane, mk_pred 11 1 "High" 9)].
Proof.
  destruct (high_risk_customers_have_high_latest rt0 db_two 0 10)
    as (page & Hrun & _ & Hall & _).
  { vm_compute. repeat constructor; set_solver. }
  exists page. split_and!; [exact Hrun | |].
  - intros c p Hcp. by apply Hall in Hcp as (_ & _ & _ & ? & _).
  - injection Hrun as <-. by vm_compute.
Defined.

(** ** Customer snapshots, updates and deletions *)

Lemma get_customer_unfold customer_id rt s :
  Customers.get_customer customer_id rt s =
  match first_where (λ c, cust_id c = customer_id) (customers (working s)) with
  | Some customer => CustomerList.customer_data_of customer rt s
  | None => (s, inl (HTTPException 404 "Customer not found"))
  end.
Proof.
  unfold Customers.get_customer. step.
  by destruct (first_where _ (customers (working s))).
Qed.

(** The response object of a customer row. *)
Lemma customer_data_of_run customer rt s :
  ∃ data,
    CustomerList.customer_data_of customer rt s = (s, inr data) ∧
    data !! "id" = Some (JUuid (cust_id customer)) ∧
    data !! "name" = Some (JStr (cust_name customer)) ∧
    data !! "email" = Some (opt_jval JStr (cust_email customer)) ∧
    data !! "phone" = Some (opt_jval JStr (cust_phone customer)) ∧
    data !! "external_id" = Some (opt_jval JStr (cust_external_id customer)) ∧
    data !! "created_at" = Some (JDatetime (cust_created_at customer)) ∧
    data !! "updated_at" = Some (opt_jval JDatetime (cust_updated_at customer)) ∧
    data !! "risk_level" =
      (λ p, JStr (pred_risk_level p)) <$>
        latest_prediction_of (cust_id customer) (working s).
Proof.
  unfold CustomerList.customer_data_of. do 2 step. cbn [mret M_ret].
  eexists. split; [reflexivity|].
  by destruct (latest_prediction_of (cust_id customer) (working s)).
Qed.

Lemma delete_customer_run rt db customer_id :
  run rt db (Customers.delete_customer customer_id) =
  match first_where (λ c, cust_id c = customer_id) (customers db) with
  | Some _ =>
    (set_customers (delete_where (λ c, cust_id c = customer_id))
       (set_customer_features (delete_where (λ f, feat_customer_id f = customer_id))
          (set_risk_predictions (delete_where (λ p, pred_customer_id p = customer_id))
             db)), inr tt)
  | None => (db, inl (HTTPException 404 "Customer not found"))
  end.
Proof.
  unfold Customers.delete_customer, run. step.
  destruct (first_where _ (customers db)) as [c|] eqn:Ec; [|done].
  apply first_where_Some in Ec as [_ ->]. by do 3 step.
Qed.



Lemma update_feature_loop_frame rt customer_id d s :
  ∃ s' r,
    for_each d (λ '(feature_name, feature_value),
      Customers.update_feature customer_id feature_name feature_value) rt s = (s', r) ∧
    committed s' = committed s ∧
    customers (working s') = customers (working s) ∧
    risk_predictions (working s') = risk_predictions (working s) ∧
    mitigations (working s') = mitigations (working s) ∧
    ∀ f, f ∈ customer_features (working s') →
         feat_customer_id f = customer_id ∨
         ∃ f0, f0 ∈ customer_features (working s) ∧
               feat_customer_id f0 = feat_customer_id f.
Proof.
  revert s. induction d as [|[k v] d IH]; intros s.
  { exists s, (inr tt). split_and!; try done. intros f Hf. right. eauto. }
  rewrite for_each_cons, update_feature_run.
  assert (∀ s1, committed s1 = committed s →
    customers (working s1) = customers (working s) →
    risk_predictions (working s1) = risk_predictions (working s) →
    mitigations (working s1) = mitigations (working s) →
    (∀ f, f ∈ customer_features (working s1) →
          feat_customer_id f = customer_id ∨
          ∃ f0, f0 ∈ customer_features (working s) ∧
                feat_customer_id f0 = feat_customer_id f) →
    ∃ s' r,
      for_each d (λ '(feature_name, feature_value),
        Customers.update_feature customer_id feature_name feature_value) rt s1 = (s', r) ∧
      committed s' = committed s ∧
      customers (working s') = customers (working s) ∧
      risk_predictions (working s') = risk_predictions (working s) ∧
      mitigations (working s') = mitigations (working s) ∧
      ∀ f, f ∈ customer_features (working s') →
           feat_customer_id f = customer_id ∨
           ∃ f0, f0 ∈ customer_features (working s) ∧
                 feat_customer_id f0 = feat_customer_id f) as Hnext.
  { intros s1 H1 H2 H3 H4 H5.
    destruct (IH s1) as (s' & r & -> & ? & ? & ? & ? & Hf).
    exists s', r. split_and!; try congruence.
    intros f Hin. destruct (Hf f Hin) as [?|(f0 & Hf0 & Heq)]; [by left|].
    destruct (H5 f0 Hf0) as [?|(f1 & ? & ?)]; [left; congruence|].
    right. exists f1. split; [done | congruence]. }
  assert (v = PyNone ∨ v ≠ PyNone) as [->|Hv] by (destruct v; eauto).
  { apply Hnext; try done. intros f Hf. right. eauto. }
  assert (∀ (X : Type) (a b : X),
    match v with PyNone => a | _ => b end = b) as Hm by (by destruct v).
  rewrite !Hm.
  destruct (float rt v) as [e|q].
  { exists s, (inl e). split_and!; try done. intros f Hf. right. eauto. }
  destruct (first_where _ _) as [existing|] eqn:Ef.
  - apply Hnext; try done. simpl. intros f Hf. right.
    unfold update_where in Hf. apply list_elem_of_fmap in Hf as (f0 & -> & Hf0).
    exists f0. split; [done|]. by case_decide.
  - rewrite add_feature_run. apply Hnext; try done. simpl. intros f Hf.
    apply elem_of_app in Hf as [Hf|Hf]; [right; eauto|].
    apply list_elem_of_singleton in Hf as ->. by left.
Qed.

(** What [update_customer] leaves committed, whatever the feature update. *)
Lemma update_customer_frame rt db customer_id customer_update features_update c0 :
  first_where (λ c, cust_id c = customer_id) (customers db) = Some c0 →
  ∃ db' res,
    run rt db (Customers.update_customer customer_id customer_update features_update) =
      (db', res) ∧
    customers db' =
      update_where (λ c, cust_id c = customer_id)
        (Customers.apply_update customer_update (utcnow rt)) (customers db) ∧
    risk_predictions db' = risk_predictions db ∧ mitigations db' = mitigations db ∧
    (∀ f, f ∈ customer_features db' →
          feat_customer_id f = customer_id ∨
          ∃ f0, f0 ∈ customer_features db ∧ feat_customer_id f0 = feat_customer_id f) ∧
    (features_update = None → customer_features db' = customer_features db) ∧
    match res with
    | inr data =>
      ∃ s, working s = db' ∧
           CustomerList.customer_data_of
             (Customers.apply_update customer_update (utcnow rt) c0) rt s = (s, inr data)
    | inl _ => features_update ≠ None
    end.
Proof.
  intros Ec. pose proof (first_where_Some _ _ _ Ec) as [_ Hid].
  assert (∀ l, update_where (λ c, cust_id c = cust_id c0)
                 (Customers.apply_update customer_update (utcnow rt)) l =
               update_where (λ c, cust_id c = customer_id)
                 (Customers.apply_update customer_update (utcnow rt)) l) as Hupd.
  { intros l. apply update_where_ext. intros x. by rewrite Hid. }
  assert (∀ s, customers (working s) =
               update_where (λ c, cust_id c = customer_id)
                 (Customers.apply_update customer_update (utcnow rt)) (customers db) →
          Customers.get_customer customer_id rt s =
          CustomerList.customer_data_of
            (Customers.apply_update customer_update (utcnow rt) c0) rt s) as Hget.
  { intros s Hs. rewrite get_customer_unfold, Hs.
    rewrite (first_where_update_where (λ c, cust_id c = customer_id)) by done.
    by rewrite Ec. }
  unfold Customers.update_customer, run. step. rewrite Ec. do 3 step. rewrite bind_run.
  destruct features_update as [d|].
  - rewrite bind_run.
    match goal with |- context [for_each d _ rt ?s1] =>
      destruct (update_feature_loop_frame rt customer_id d s1)
        as (s' & r & -> & Hc & Hcust & Hpred & Hmit & Hfeat) end.
    cbn [committed working customers risk_predictions mitigations customer_features
         set_customers] in Hc, Hcust, Hpred, Hmit, Hfeat.
    destruct r as [e|[]].
    + eexists _, _. split; [reflexivity|]. cbn [committed]. rewrite Hc.
      cbn [customers risk_predictions mitigations customer_features set_customers].
      split_and!; try done. intros f Hf. right. eauto.
    + rewrite db_commit_run. cbn [committed working drawn].
      rewrite Hget by (cbn [working]; by rewrite Hcust, Hupd).
      match goal with |- context [CustomerList.customer_data_of ?c rt ?s1] =>
        destruct (customer_data_of_run c rt s1) as (data & Hdata & _) end.
      rewrite Hdata. eexists _, _. split; [reflexivity|]. cbn [committed].
      split_and!; [by rewrite Hcust, Hupd | done | done | done | done |].
      eexists. split; [|exact Hdata]. done.
  - cbn [mret M_ret].
    rewrite Hget by (cbn [working customers set_customers]; by rewrite Hupd).
    match goal with |- context [CustomerList.customer_data_of ?c rt ?s1] =>
      destruct (customer_data_of_run c rt s1) as (data & Hdata & _) end.
    rewrite Hdata. eexists _, _. split; [reflexivity|]. cbn [committed].
    cbn [customers risk_predictions mitigations customer_features set_customers].
    split_and!; [by rewrite Hupd | done | done | | done |].
    + intros f Hf. right. eauto.
    + eexists. split; [|exact Hdata]. done.
Qed.

(** X15: [update_customer] without a feature update, on an existing
    customer, returns the snapshot with the new name, with email and phone
    replaced only where the body set them, with the stored id, external id
    and creation time, and with the clock as updated-at; customer ids and
    the rows of other customers are as before and no other table changes.
    For an id that names no customer it answers 404 and changes nothing,
    whatever the body. *)
Theorem update_customer_details rt db customer_id customer_update :
  (∀ c0,
     first_where (λ c, cust_id c = customer_id) (customers db) = Some c0 →
     ∃ db' data,
       run rt db (Customers.update_customer customer_id customer_update None) =
         (db', inr data) ∧
       data !! "id" = Some (JUuid customer_id) ∧
       data !! "name" = Some (JStr (cb_name customer_update)) ∧
       data !! "email" =
         Some (opt_jval JStr (default (cust_email c0) (cb_email customer_update))) ∧
       data !! "phone" =
         Some (opt_jval JStr (default (cust_phone c0) (cb_phone customer_update))) ∧
       data !! "external_id" = Some (opt_jval JStr (cust_external_id c0)) ∧
       data !! "created_at" = Some (JDatetime (cust_created_at c0)) ∧
       data !! "updated_at" = Some (JDatetime (utcnow rt)) ∧
       cust_id <$> customers db' = cust_id <$> customers db ∧
       (∀ x, x ∈ customers db → cust_id x ≠ customer_id → x ∈ customers db') ∧
       customer_features db' = customer_features db ∧
       risk_predictions db' = risk_predictions db ∧ mitigations db' = mitigations db) ∧
  (∀ features_update,
     (∀ c, c ∈ customers db → cust_id c ≠ customer_id) →
     run rt db (Customers.update_customer customer_id customer_update features_update) =
       (db, inl (HTTPException 404 "Customer not found"))).
Proof.
  split.
  - intros c0 Ec. pose proof (first_where_Some _ _ _ Ec) as [_ Hid].
    destruct (update_customer_frame rt db customer_id customer_update None c0 Ec)
      as (db' & res & Hrun & Hcust & Hpred & Hmit & _ & Hfeat & Hres).
    destruct res as [e|data]; [done|]. destruct Hres as (s & Hs & Hdata).
    destruct (customer_data_of_run
                (Customers.apply_update customer_update (utcnow rt) c0) rt s)
      as (data' & Hdata' & Hfields).
    rewrite Hdata in Hdata'. injection Hdata' as <-.
    destruct Hfields as (? & ? & ? & ? & ? & ? & ? & _). simpl in *.
    exists db', data. split_and!; try done; try by auto.
    + congruence.
    + rewrite Hcust. unfold update_where. rewrite <- list_fmap_compose.
      apply list_fmap_ext. intros _ x _. simpl. by case_decide.
    + intros x Hx Hne. rewrite Hcust. by apply update_where_other.
  - intros features_update Habs. unfold Customers.update_customer, run. step.
    assert (first_where (λ c, cust_id c = customer_id) (customers db) = None) as ->;
      [|done].
    apply first_where_None. intros c Hc. by apply Habs.
Qed.

Lemma update_customer_details_witness :
  ∃ db' data,
    run rt0 db_two
      (Customers.update_customer 1%N
         {| cb_name := "Jane Roe"; cb_email := Some (Some "jane@example.com");
            cb_phone := None |} None) = (db', inr data) ∧
    data !! "name" = Some (JStr "Jane Roe") ∧
    data !! "email" = Some (JStr "jane@example.com") ∧
    data !! "updated_at" = Some (JDatetime 1000).
Proof.
  destruct (proj1 (update_customer_details rt0 db_two 1%N
              {| cb_name := "Jane Roe"; cb_email := Some (Some "jane@example.com");
                 cb_phone := None |}) jane eq_refl)
    as (db' & data & Hrun & _ & Hname & Hemail & _ & _ & _ & Hupd & _).
  exists db', data. split_and!; [exact Hrun | exact Hname | exact Hemail | exact Hupd].
Defined.

(** ** Listing customers *)








(** ** Creating a customer and reading it back *)

Lemma customer_data_of_features customer rt s data :
  CustomerList.customer_data_of customer rt s = (s, inr data) →
  data !! "features" =
    Some (JFeatures (collect feat_feature_name feat_feature_value ∅
            (filter (λ f, feat_customer_id f = cust_id customer)
                    (customer_features (working s))))).
Proof.
  unfold CustomerList.customer_data_of. do 2 step. cbn [mret M_ret].
  intros [= <-]. by destruct (latest_prediction_of (cust_id customer) (working s)).
Qed.

Lemma customer_data_of_working customer rt rt' s s' :
  working s = working s' →
  (CustomerList.customer_data_of customer rt s).2 =
  (CustomerList.customer_data_of customer rt' s').2.
Proof.
  intros Hw. unfold CustomerList.customer_data_of.
  rewrite !bind_run, !query_run. cbv beta iota. rewrite !bind_run, !query_run.
  cbv beta iota. cbn [mret M_ret snd]. by rewrite Hw.
Qed.

Lemma feature_rows_elem_of rt customer_id n items f :
  f ∈ feature_rows rt customer_id n items →
  feat_customer_id f = customer_id ∧ feat_recorded_at f = utcnow rt ∧
  (feat_feature_name f, feat_feature_value f) ∈ items.
Proof.
  revert n. induction items as [|[k q] items IH]; intros n; simpl;
    [by intros ?%not_elem_of_nil|].
  intros [->|Hf]%elem_of_cons; [by split_and!; [..|left]|].
  apply IH in Hf as (? & ? & ?). split_and!; [done..|by right].
Qed.

Lemma feature_rows_names rt customer_id n items :
  feat_feature_name <$> feature_rows rt customer_id n items = items.*1.
Proof.
  revert n. induction items as [|[k q] items IH]; intros n; [done|].
  simpl. by rewrite IH.
Qed.

Lemma feature_rows_item rt customer_id n items k q :
  (k, q) ∈ items →
  ∃ f, f ∈ feature_rows rt customer_id n items ∧
       feat_feature_name f = k ∧ feat_feature_value f = q.
Proof.
  revert n. induction items as [|[k' q'] items IH]; intros n;
    [by intros ?%not_elem_of_nil|].
  intros [[= -> ->]|Hin]%elem_of_cons; simpl.
  - eexists. split; [left|done].
  - destruct (IH (S n) Hin) as (f & Hf & ? & ?). exists f. split; [by right|done].
Qed.

Lemma create_customer_result rt db customer d items :
  supplied_values rt d = inr items →
  ∃ s,
    working s =
      set_customer_features (λ l, l ++ feature_rows rt (uuid4 rt 0) 1 items)
        (set_customers (λ l, l ++ [new_customer rt customer]) db) ∧
    run rt db (Customers.create_customer customer (Some d)) =
      (working s, (Customers.get_customer (uuid4 rt 0) rt s).2).
Proof.
  intros Hitems. unfold Customers.create_customer, run.
  do 4 step. rewrite bind_run, bind_run.
  match goal with |- context [for_each d _ rt ?s1] =>
    destruct (create_feature_loop rt (uuid4 rt 0) d s1) as (s' & r & Hloop & Hc & Hres) end.
  cbn [drawn committed working cust_id] in *. rewrite Hloop.
  rewrite Hitems in Hres. destruct Hres as (-> & Hd & Hw). rewrite db_commit_run.
  match goal with |- context [Customers.get_customer _ rt ?s1] =>
    exists s1; pose proof (get_customer_session rt s1 (uuid4 rt 0)) as Hs;
    destruct (Customers.get_customer (uuid4 rt 0) rt s1) as [s2 r2] end.
  simpl in Hs. subst s2. cbn [working committed snd]. by split.
Qed.

(** X18: when the drawn uuid is not yet used by any row and the supplied
    feature values all convert to floats under distinct names,
    [create_customer] returns the snapshot of the new customer: the drawn
    id, the request's name, email, phone and external id, the clock as
    creation time, no updated-at, no risk fields, and a feature dictionary
    holding exactly the supplied non-null features; [get_customer] on the
    new id returns the same snapshot afterwards. *)
Theorem create_customer_round_trip rt rt' db customer d items :
  (∀ c, c ∈ customers db → cust_id c ≠ uuid4 rt 0) →
  (∀ f, f ∈ customer_features db → feat_customer_id f ≠ uuid4 rt 0) →
  (∀ p, p ∈ risk_predictions db → pred_customer_id p ≠ uuid4 rt 0) →
  supplied_values rt d = inr items → NoDup items.*1 →
  ∃ db' data features,
    run rt db (Customers.create_customer customer (Some d)) = (db', inr data) ∧
    data !! "id" = Some (JUuid (uuid4 rt 0)) ∧
    data !! "name" = Some (JStr (cc_name customer)) ∧
    data !! "email" = Some (opt_jval JStr (cc_email customer)) ∧
    data !! "phone" = Some (opt_jval JStr (cc_phone customer)) ∧
    data !! "external_id" = Some (opt_jval JStr (cc_external_id customer)) ∧
    data !! "created_at" = Some (JDatetime (utcnow rt)) ∧
    data !! "updated_at" = Some JNull ∧
    data !! "risk_level" = None ∧
    data !! "features" = Some (JFeatures features) ∧
    (∀ k q, features !! k = Some q ↔ (k, q) ∈ items) ∧
    run rt' db' (Customers.get_customer (uuid4 rt 0)) = (db', inr data).
Proof.
  intros Hc Hf Hp Hitems Hnd.
  destruct (create_customer_result rt db customer d items Hitems) as (s & Hw & Hrun).
  set (c := new_customer rt customer).
  set (rows := feature_rows rt (uuid4 rt 0) 1 items).
  assert (first_where (λ x, cust_id x = uuid4 rt 0) (customers (working s)) = Some c)
    as Hfirst.
  { rewrite Hw. simpl. by apply (first_where_app_fresh (λ x, cust_id x = uuid4 rt 0)). }
  destruct (customer_data_of_run c rt s)
    as (data & Hdata & Hid & Hname & Hemail & Hphone & Hext & Hcre & Hupd & Hrisk).
  pose proof (customer_data_of_features c rt s data Hdata) as Hfeat.
  assert (filter (λ f, feat_customer_id f = cust_id c) (customer_features (working s))
          = rows) as Hrows.
  { rewrite Hw. simpl. rewrite filter_app.
    assert (filter (λ f, feat_customer_id f = uuid4 rt 0) (customer_features db) = [])
      as ->.
    { apply head_None, (first_where_None (λ f, feat_customer_id f = uuid4 rt 0)).
      intros f Hin. by apply Hf. }
    simpl. fold rows. clear. unfold rows. generalize 1%nat.
    induction items as [|[k q] items IH]; intros n; [done|].
    simpl. rewrite filter_cons, decide_True by done. by rewrite IH. }
  rewrite Hrows in Hfeat.
  assert (run rt db (Customers.create_customer customer (Some d)) = (working s, inr data))
    as Hrun'.
  { rewrite Hrun, get_customer_unfold, Hfirst. by rewrite Hdata. }
  exists (working s), data, (collect feat_feature_name feat_feature_value ∅ rows).
  split_and!; try done.
  - rewrite Hrisk.
    assert (latest_prediction_of (cust_id c) (working s) = None) as ->; [|done].
    apply latest_prediction_of_None. rewrite Hw. simpl. intros p Hin. by apply Hp.
  - intros k q. split.
    + intros Hk. apply collect_lookup_Some in Hk as [(f & Hin & <- & <-)|Hk];
        [|by rewrite lookup_empty in Hk].
      by apply feature_rows_elem_of in Hin as (_ & _ & ?).
    + intros Hin.
      destruct (feature_rows_item rt (uuid4 rt 0) 1 items k q Hin) as (f & Hfin & <- & <-).
      apply collect_lookup_NoDup; [|done].
      unfold rows. by rewrite feature_rows_names.
  - unfold run. rewrite get_customer_unfold. cbn [working]. rewrite Hfirst.
    rewrite (surjective_pairing (CustomerList.customer_data_of c rt' _)).
    rewrite (customer_data_of_working c rt' rt _ s) by done. rewrite Hdata.
    destruct (customer_data_of_run c rt'
                {| committed := working s; working := working s; drawn := 0 |})
      as (data' & -> & _). done.
Qed.

Lemma create_customer_round_trip_witness :
  ∃ db' data features,
    run rt0 db_jane
      (Customers.create_customer sam (Some [("age", PyInt 30); ("income", PyNone)])) =
      (db', inr data) ∧
    data !! "name" = Some (JStr "Sam Roe") ∧
    data !! "features" = Some (JFeatures features) ∧
    features !! "age" = Some (inject_Z 30) ∧
    run rt0 db' (Customers.get_customer 100%N) = (db', inr data).
Proof.
  destruct (create_customer_round_trip rt0 rt0 db_jane sam
              [("age", PyInt 30); ("income", PyNone)] [("age", inject_Z 30)])
    as (db' & data & features & Hrun & _ & Hname & _ & _ & _ & _ & _ & _ & Hfeat & Hitems
        & Hget).
  - intros c Hc. apply list_elem_of_singleton in Hc as ->. by vm_compute.
  - intros f Hf. by apply not_elem_of_nil in Hf.
  - intros p Hp. vm_compute in Hp. set_unfold. by destruct Hp as [->|[->|[]]].
  - reflexivity.
  - repeat constructor; set_solver.
  - exists db', data, features.
    split_and!; [exact Hrun | exact Hname | exact Hfeat | | exact Hget].
    apply Hitems. left.
Defined.

(** ** References to customers *)

Lemma post_mitigation_frame rt db body :
  let db' := (run rt db (Mitigations.post_mitigation body)).1 in
  customers db' = customers db ∧ customer_features db' = customer_features db ∧
  risk_predictions db' = risk_predictions db.
Proof.
  unfold Mitigations.post_mitigation, MitigationCreate_validate,
    Mitigations.create_mitigation.
  destruct (validator_errors _ ++ validator_errors _); session; [|done].
  destruct (first_where _ (customers db)); simpl; [|done].
  destruct (latest_prediction_of _ db); simpl; [|done].
  by case_bool_decide.
Qed.

Lemma update_status_frame rt db mitigation_id status :
  let db' := (run rt db (Mitigations.update_mitigation_status mitigation_id status)).1 in
  customers db' = customers db ∧ customer_features db' = customer_features db ∧
  risk_predictions db' = risk_predictions db.
Proof.
  unfold Mitigations.update_mitigation_status.
  destruct (decide (status ∉ valid_statuses)); [done|]. session.
  by destruct (first_where _ (mitigations db)).
Qed.

Lemma references_extend db db' :
  references_customers db →
  (∀ c, c ∈ customers db → ∃ c', c' ∈ customers db' ∧ cust_id c' = cust_id c) →
  (∀ p, p ∈ risk_predictions db' →
        p ∈ risk_predictions db ∨ ∃ c, c ∈ customers db' ∧ cust_id c = pred_customer_id p) →
  (∀ f, f ∈ customer_features db' →
        (∃ f0, f0 ∈ customer_features db ∧ feat_customer_id f0 = feat_customer_id f) ∨
        ∃ c, c ∈ customers db' ∧ cust_id c = feat_customer_id f) →
  references_customers db'.
Proof.
  intros [Hp Hf] Hc Hp' Hf'. split.
  - intros p Hin. destruct (Hp' p Hin) as [Hold|?]; [|done].
    destruct (Hp p Hold) as (c & Hcin & <-). by apply Hc.
  - intros f Hin. destruct (Hf' f Hin) as [(f0 & Hold & <-)|?]; [|done].
    destruct (Hf f0 Hold) as (c & Hcin & <-). by apply Hc.
Qed.

(** X19: every modelled write keeps the two references to customers intact:
    if each prediction row and each feature row references a stored customer
    before [create_customer], [update_customer], [delete_customer], either
    predict, a mitigation creation or a status update, then the same holds
    of the database the request leaves, whether it succeeds or fails. *)
Theorem writes_keep_customer_references rt db :
  references_customers db →
  (∀ customer features,
     references_customers (run rt db (Customers.create_customer customer features)).1) ∧
  (∀ customer_id customer_update features_update,
     references_customers
       (run rt db (Customers.update_customer customer_id customer_update
                     features_update)).1) ∧
  (∀ customer_id,
     references_customers (run rt db (Customers.delete_customer customer_id)).1) ∧
  (∀ risk_model customer_id features,
     references_customers
       (run rt db (Predictions.predict_customer_risk risk_model customer_id features)).1) ∧
  (∀ risk_model customer_id features,
     references_customers
       (run rt db (RiskService.predict_customer_risk risk_model customer_id features)).1) ∧
  (∀ body, references_customers (run rt db (Mitigations.post_mitigation body)).1) ∧
  (∀ mitigation_id status,
     references_customers
       (run rt db (Mitigations.update_mitigation_status mitigation_id status)).1).
Proof.
  intros Href. split_and!.
  - intros customer features.
    assert (∀ rows,
      (∀ f, f ∈ rows → feat_customer_id f = uuid4 rt 0) →
      references_customers
        (set_customer_features (λ l, l ++ rows)
           (set_customers (λ l, l ++ [new_customer rt customer]) db))) as Hnew.
    { intros rows Hrows. apply (references_extend db); [done|..]; simpl.
      - intros c Hc. exists c. split; [|done]. apply elem_of_app. by left.
      - intros p Hp. by left.
      - intros f [Hf|Hf]%elem_of_app; [left; eauto|].
        right. exists (new_customer rt customer).
        split; [apply elem_of_app; right; left | by rewrite (Hrows f Hf)]. }
    destruct features as [d|].
    + pose proof (create_customer_spec rt db customer d) as Hspec. simpl in Hspec.
      destruct (supplied_values rt d) as [e|items].
      * rewrite Hspec. simpl.
        rewrite <- (set_customer_features_nil (set_customers _ db)).
        apply Hnew. by intros f ?%not_elem_of_nil.
      * destruct Hspec as [data ->]. simpl. apply Hnew.
        intros f Hf. by apply feature_rows_elem_of in Hf as [? _].
    + destruct (create_customer_no_features rt db customer) as [data ->]. simpl.
      rewrite <- (set_customer_features_nil (set_customers _ db)).
      apply Hnew. by intros f ?%not_elem_of_nil.
  - intros customer_id customer_update features_update.
    destruct (first_where (λ c, cust_id c = customer_id) (customers db)) as [c0|] eqn:Ec.
    + destruct (update_customer_frame rt db customer_id customer_update
                  features_update c0 Ec)
        as (db' & res & -> & Hcust & Hpred & Hmit & Hfeat & _).
      simpl.
      assert (∀ c, c ∈ customers db → ∃ c', c' ∈ customers db' ∧ cust_id c' = cust_id c)
        as Hids.
      { intros c Hc. rewrite Hcust. unfold update_where.
        eexists. split; [by apply list_elem_of_fmap_2|]. by case_decide. }
      apply (references_extend db); [done | done | |].
      * intros p Hp. left. by rewrite <- Hpred.
      * intros f Hf. destruct (Hfeat f Hf) as [Hid|?]; [|by left].
        right. apply first_where_Some in Ec as [Hc0 Hc0id].
        destruct (Hids c0 Hc0) as (c' & ? & ?). exists c'. split; [done | congruence].
    + unfold Customers.update_customer, run. step. by rewrite Ec.
  - intros customer_id. rewrite delete_customer_run.
    destruct (first_where _ (customers db)); [|done]. simpl.
    destruct Href as [Hp Hf]. split; simpl.
    + intros p [Hpin Hne]%delete_where_spec.
      destruct (Hp p Hpin) as (c1 & Hc1 & Hid). exists c1. split; [|done].
      apply delete_where_spec. split; [done | congruence].
    + intros f [Hfin Hne]%delete_where_spec.
      destruct (Hf f Hfin) as (c1 & Hc1 & Hid). exists c1. split; [|done].
      apply delete_where_spec. split; [done | congruence].
  - intros risk_model customer_id features. rewrite endpoint_predict_spec.
    destruct (first_where _ (customers db)) as [c|] eqn:Ec; [|done].
    apply first_where_Some in Ec as [Hc Hid].
    destruct (RiskModel_predict risk_model features) as [[]|r]; try done.
    simpl. apply (references_extend db); [done|..]; simpl.
    + intros c1 Hc1. eauto.
    + intros p [Hp|Hp]%elem_of_app; [by left|].
      apply list_elem_of_singleton in Hp as ->. right. eauto.
    + intros f Hf. left. eauto.
  - intros risk_model customer_id features. rewrite service_predict_spec.
    destruct (first_where _ (customers db)) as [c|] eqn:Ec; [|done].
    apply first_where_Some in Ec as [Hc Hid].
    destruct (RiskModel_predict risk_model features) as [e|r]; [done|].
    simpl. apply (references_extend db); [done|..]; simpl.
    + intros c1 Hc1. eauto.
    + intros p [Hp|Hp]%elem_of_app; [by left|].
      apply list_elem_of_singleton in Hp as ->. right. eauto.
    + intros f [Hf|Hf]%elem_of_app; [left; eauto|].
      apply feature_rows_elem_of in Hf as [Hf _]. right. exists c. by rewrite Hf.
  - intros body. destruct (post_mitigation_frame rt db body) as (Hc & Hf & Hp).
    destruct Href as [Hrp Hrf]. split.
    + intros p. rewrite Hp, Hc. apply Hrp.
    + intros f. rewrite Hf, Hc. apply Hrf.
  - intros mitigation_id status.
    destruct (update_status_frame rt db mitigation_id status) as (Hc & Hf & Hp).
    destruct Href as [Hrp Hrf]. split.
    + intros p. rewrite Hp, Hc. apply Hrp.
    + intros f. rewrite Hf, Hc. apply Hrf.
Qed.

Lemma writes_keep_customer_references_witness :
  references_customers db_flagged ∧
  references_customers (run rt0 db_flagged (Customers.delete_customer 1%N)).1.
Proof.
  assert (references_customers db_flagged) as Href.
  { split.
    - intros p Hp. exists jane. split; [left|].
      vm_compute in Hp. set_unfold. by destruct Hp as [->|[]].
    - intros f Hf. exists jane. split; [left|].
      vm_compute in Hf. set_unfold. by destruct Hf as [->|[]]. }
  split; [exact Href|].
  by apply (writes_keep_customer_references rt0 db_flagged Href).
Defined.

(** ** Predicting, outcome by outcome *)



Lemma latest_prediction_of_newest cid db p :
  pred_customer_id p = cid →
  (∀ q, q ∈ risk_predictions db → pred_customer_id q = cid →
        pred_prediction_timestamp q < pred_prediction_timestamp p) →
  latest_prediction_of cid (set_risk_predictions (λ l, l ++ [p]) db) = Some p.
Proof.
  intros Hp Hnew.
  destruct (latest_prediction_of cid (set_risk_predictions (λ l, l ++ [p]) db))
    as [x|] eqn:Ex.
  - apply latest_prediction_of_Some in Ex as (Hx & Hxc & Hmax). simpl in Hx, Hmax.
    apply elem_of_app in Hx. destruct Hx as [Hx|Hx].
    + specialize (Hnew x Hx Hxc).
      assert (pred_prediction_timestamp p ≤ pred_prediction_timestamp x); [|lia].
      apply Hmax; [|done]. apply elem_of_app. right. left.
    + by apply list_elem_of_singleton in Hx as ->.
  - exfalso.
    apply (proj1 (latest_prediction_of_None cid _) Ex p); [|done].
    simpl. apply elem_of_app. right. left.
Qed.

(** X21: a successful predict on the endpoint appends exactly one prediction
    row, with the drawn id, the oracle's level and confidence and the clock
    as timestamp, and changes no other table; when the clock is later than
    every stored prediction of the customer, that row becomes the customer's
    current risk level, and if the level is "High" a mitigation request with
    label "High" and an allowed type for that customer then succeeds with
    status "Pending". *)
Theorem predict_then_current_level rt rt' db risk_model customer_id features c r :
  c ∈ customers db → cust_id c = customer_id →
  RiskModel_predict risk_model features = inr r →
  (∀ q, q ∈ risk_predictions db → pred_customer_id q = customer_id →
        pred_prediction_timestamp q < utcnow rt) →
  ∃ db' p,
    run rt db (Predictions.predict_customer_risk risk_model customer_id features) =
      (db', inr p) ∧
    risk_predictions db' = risk_predictions db ++ [p] ∧
    customers db' = customers db ∧ customer_features db' = customer_features db ∧
    mitigations db' = mitigations db ∧
    pred_id p = uuid4 rt 0 ∧ pred_customer_id p = customer_id ∧
    pred_risk_level p = risk_level r ∧ pred_confidence_score p = confidence_score r ∧
    pred_prediction_timestamp p = utcnow rt ∧
    current_risk_level customer_id db' = Some (risk_level r) ∧
    (risk_level r = "High" →
     ∀ body, mc_customer_id body = customer_id → mc_risk_level body = "High" →
             mc_mitigation_type body ∈ allowed_types →
       ∃ m, run rt' db' (Mitigations.post_mitigation body) =
              (set_mitigations (λ l, l ++ [m]) db', inr m) ∧
            mit_status m = "Pending").
Proof.
  intros Hc Hid Hr Hnew.
  destruct (first_where_exists (λ c, cust_id c = customer_id) _ c Hc Hid) as [c' Ec].
  set (p := new_prediction rt customer_id r).
  assert (current_risk_level customer_id (set_risk_predictions (λ l, l ++ [p]) db) =
          Some (risk_level r)) as Hcur.
  { unfold current_risk_level. by rewrite (latest_prediction_of_newest customer_id db p). }
  exists (set_risk_predictions (λ l, l ++ [p]) db), p.
  split; [by rewrite endpoint_predict_spec, Ec, Hr|].
  split_and!; try done.
  intros Hhigh body Hbc Hbl Hbt.
  destruct (post_mitigation_high rt' (set_risk_predictions (λ l, l ++ [p]) db) body c)
    as (m & Hrun & Hst & _); try done; [congruence | by rewrite Hbc, Hcur, Hhigh |].
  by exists m.
Qed.

Lemma predict_then_current_level_witness :
  ∃ db' p,
    run rt0 db_two (Predictions.predict_customer_risk (constant_model 2) 2%N jane_features) =
      (db', inr p) ∧
    current_risk_level 2%N db' = Some "High".
Proof.
  destruct (predict_then_current_level rt0 rt0 db_two (constant_model 2) 2%N jane_features
              {| cust_id := 2%N; cust_external_id := None; cust_name := "Sam Roe";
                 cust_email := None; cust_phone := None; cust_created_at := 2;
                 cust_updated_at := None |}
              {| risk_level := "High"; confidence_score := None; prediction := 2 |})
    as (db' & p & Hrun & _ & _ & _ & _ & _ & _ & _ & _ & _ & Hcur & _).
  - right. left.
  - reflexivity.
  - reflexivity.
  - intros q Hq Hqc. vm_compute in Hq. set_unfold.
    by destruct Hq as [->|[->|[]]].
  - exists db', p. split; [exact Hrun | exact Hcur].
Defined.

(** X22: without any assumption on the stored levels, the three buckets of
    the statistics endpoint never exceed, together, the number of distinct
    customers that have a prediction; the difference is the number of
    customers whose latest row carries a level other than "Low", "Medium",
    "High"; and the endpoint reports zeros on a database without
    predictions. *)
Theorem distribution_buckets_bound rt db :
  ∃ d,
    run rt db Predictions.get_risk_distribution = (db, inr d) ∧
    (low_risk_count d + medium_risk_count d + high_risk_count d +
     length (filter (λ row, row.2 ∉ allowed_values) (latest_risk_levels db)))%nat =
      size (customers_with_predictions db) ∧
    (total_customers d ≤ size (customers_with_predictions db))%nat ∧
    (risk_predictions db = [] →
     low_risk_count d = 0%nat ∧ medium_risk_count d = 0%nat ∧
     high_risk_count d = 0%nat ∧ total_customers d = 0%nat).
Proof.
  eexists. split; [apply endpoint_distribution_spec|]. simpl.
  pose proof (count_level_partition (latest_risk_levels db)) as Hpart.
  assert (length (latest_risk_levels db) = size (customers_with_predictions db)) as Hlen.
  { unfold latest_risk_levels. by rewrite length_fmap, latest_rows_length. }
  split_and!; [lia | lia |].
  intros Hnil.
  assert (latest_risk_levels db = []) as ->; [|done].
  unfold latest_risk_levels, latest_rows. by rewrite Hnil.
Qed.
